(** * Afghan-Style storefront: the mock service layer of [script.js]
      and the listeners of its pages

    The page keeps a shopping cart and a session in the browser's
    [localStorage] and computes the priced cart on every read.  This file
    embeds that service layer ([mockApi]) and the listeners that call it,
    proves the properties the specification states, and then further
    properties of the code: how the calls compose, what the binary64
    amounts are, and what the page can do to the storage.

    Conventions of the embedding.
    - A JavaScript string is a sequence of UTF-16 code units; [js] turns a
      literal into one.
    - [localStorage] is a finite map from keys to texts; its calls succeed
      (no quota or access error).
    - Every [mockApi] method awaits a timer first and then runs to its end
      without another suspension point, so a call is one atomic step on the
      storage, taken when the timer fires.  The delays themselves are not
      modelled.
    - [JSON.stringify] and [JSON.parse] are an interface ([JSON]) with the
      two facts the program relies on: parsing what was serialised gives the
      value back, and the empty text is not JSON.
    - The cart object is used as a map from product ids to quantities and
      is a finite map here; stored text that parses to anything else is
      outside the model.  The order in which the object lists its keys
      (the order of their insertion) is not modelled: the text written for
      a mapping stands for any text that reads back as that mapping, and
      the statements that compare what different call sequences leave
      compare the mappings read back, and lines up to their order.  The
      assignment [cart[key] = v] is an insertion except at the key
      [__proto__], where it is written out ([assign]).
    - Quantities are JavaScript numbers that are integers, as the pages
      produce them ([addToCart(pid, 1)], [parseInt] in the quantity box):
      doubles, which hold every integer up to 2^53 and beyond that the
      integers of 53 significant bits.  Sums of quantities are rounded as
      the doubles round them ([plus]).  A number that is no finite integer
      ([NaN], an infinity, a fraction) is outside the model, and so is the
      [null] that the program stores for the first two.
    - Prices and amounts are JavaScript numbers.  [getCart] is written once
      over an interface of the arithmetic it uses ([Number]) and read in
      IEEE-754 binary64, as the browser computes: the operations are those
      of [SpecFloat], and [toFixed(2)] and the unary [+] are written out.
      The worked example of the specification is also read in exact
      rational arithmetic.
    - [Date.now()] is an argument of the calls that read the clock.
    - A listener of the page is the storage transformation it performs
      together with the text it alerts; the markup the page writes is not
      modelled.  [renderAuthState] is left out, with the logout listener it
      attaches: its last branch assigns markup without quotes and is not
      JavaScript as written. *)

From Stdlib Require Import ZArith QArith Qcanon Qround Lia.
From Stdlib Require Import Floats.SpecFloat.
From stdpp Require Import base option list gmap strings pretty.

(** ** Strings *)

Abbreviation jsstring := (list N).

Definition js (s : string) : jsstring :=
  Ascii.N_of_ascii <$> String.list_ascii_of_string s.

(** [String(n)] for an integer [n]. *)
Definition String_of_Z (n : Z) : jsstring := js (pretty n).

(** ** Exceptions and the storage monad *)

Inductive exn :=
  | Error (message : jsstring)   (* new Error(message) *)
  | SyntaxError                  (* JSON.parse on text that is not JSON *)
  | InvalidCharacterError.       (* btoa on a code unit above 0xFF *)

Definition NotFound : exn := Error (js "Product not found").
Definition EmptyCart : exn := Error (js "Cart is empty").

Inductive outcome (A : Type) :=
  | Ok (a : A)
  | Throw (e : exn).
Arguments Ok {A} a.
Arguments Throw {A} e.

Abbreviation Storage := (gmap jsstring jsstring).

(** A computation reads and writes the storage and returns or throws; what
    was written before a throw stays written. *)
Definition M (A : Type) : Type := Storage → outcome A * Storage.

Global Instance M_ret : MRet M := λ A a ls, (Ok a, ls).
Global Instance M_bind : MBind M := λ A B f m ls,
  match m ls with
  | (Ok a, ls') => f a ls'
  | (Throw e, ls') => (Throw e, ls')
  end.

Definition throw {A} (e : exn) : M A := λ ls, (Throw e, ls).

(** [try { body } catch { handler }] *)
Definition try_catch {A} (body : M A) (handler : exn → M A) : M A := λ ls,
  match body ls with
  | (Ok a, ls') => (Ok a, ls')
  | (Throw e, ls') => handler e ls'
  end.

(** The Web Storage calls. *)
Definition getItem (key : jsstring) : M (option jsstring) :=
  λ ls, (Ok (ls !! key), ls).
Definition setItem (key value : jsstring) : M () :=
  λ ls, (Ok (), <[key := value]> ls).
Definition removeItem (key : jsstring) : M () :=
  λ ls, (Ok (), delete key ls).

(** ** JSON *)

Class JSON (A : Type) := {
  JSON_stringify : A → jsstring;
  JSON_text : jsstring → option A;      (* [None]: the text is rejected *)
  JSON_text_stringify a : JSON_text (JSON_stringify a) = Some a;
  JSON_text_empty : JSON_text [] = None;
}.

(** [JSON.parse(text)] throws on rejected text. *)
Definition JSON_parse {A} {codec : JSON A} (text : jsstring) : M A :=
  match JSON_text text with
  | Some a => mret a
  | None => throw SyntaxError
  end.

(** ** Numbers *)

Class Number (num : Type) := {
  lit : Z → nat → num;        (* the decimal literal m / 10^d *)
  add : num → num → num;      (* x + y *)
  mul : num → num → num;      (* x * y *)
  toFixed2 : num → num;       (* +(x).toFixed(2) *)
}.

(** ** Catalog *)

Record Product (num : Type) := {
  id : jsstring;
  name : jsstring;
  price : num;
  img : option jsstring;
}.
Arguments id {num} _.
Arguments name {num} _.
Arguments price {num} _.
Arguments img {num} _.

Definition MOCK_PRODUCTS {num} {arith : Number num} : list (Product num) :=
  [ {| id := js "p1"; name := js "Classic Hoodie"; price := lit 4500 2;
       img := Some (js "images/product1.jpg") |};
    {| id := js "p2"; name := js "Stylish Jacket"; price := lit 7000 2;
       img := Some (js "images/product2.jpg") |};
    {| id := js "p3"; name := js "Sporty Sneakers"; price := lit 6000 2;
       img := Some (js "images/product3.jpg") |};
    {| id := js "p4"; name := js "Summer T-Shirt"; price := lit 3000 2;
       img := Some (js "images/product4.jpg") |} ].

(** [MOCK_PRODUCTS.find(p => p.id === productId)] *)
Definition find_product {num} {arith : Number num} (productId : jsstring)
    : option (Product num) :=
  find (λ p, bool_decide (id p = productId)) MOCK_PRODUCTS.

(** The ids of the catalog. *)
Definition product_ids {num} {arith : Number num} : list jsstring :=
  id <$> MOCK_PRODUCTS.

(** ** Cart store *)

Abbreviation Cart := (gmap jsstring Z).

Definition fh_cart : jsstring := js "fh_cart".
Definition fh_token : jsstring := js "fh_token".
Definition fh_user : jsstring := js "fh_user".

(** [v || 0] for a property read [v]: a missing property is [undefined]. *)
Definition or_zero (v : option Z) : Z :=
  match v with
  | Some q => if bool_decide (q = 0%Z) then 0%Z else q
  | None => 0%Z
  end.

(** *** Quantities

    A quantity is a JavaScript number, a double; the pages and the
    examples of the specification pass integers.  An integer that a
    double holds has at most 53 significant bits and is below 2^1024 in
    magnitude.  [round53 z] is the nearest integer of at most 53
    significant bits, a tie going to the even significand: it is the
    double nearest to [z] when it is below 2^1024 in magnitude, and
    otherwise the double is an infinity, which the program stores as
    [null] and which is outside of this model. *)
Definition round53 (z : Z) : Z :=
  let a := Z.abs z in
  let s := Z.max 0 (Z.log2 a - 52) in
  let h := (a / 2 ^ s)%Z in
  let r := (a mod 2 ^ s)%Z in
  let up := (2 ^ s <? 2 * r)%Z || ((2 ^ s =? 2 * r)%Z && Z.odd h) in
  (Z.sgn z * ((if up then h + 1 else h) * 2 ^ s))%Z.

Definition finite (z : Z) : bool := (Z.abs z <? 2 ^ 1024)%Z.

(** [a + b] on numbers that are integers, when [finite]. *)
Definition plus (a b : Z) : Z := round53 (a + b).

(** A number passed to the service: an integer that is a double. *)
Record quantity := Quantity {
  units :> Z;
  units_double : round53 units = units;
  units_finite : finite units = true;
}.

(** The double nearest to an integer, as a numeric literal and [parseInt]
    give it; the last case is that of an infinity.  Rounding twice is
    rounding once ([round53_idem] below), so the middle case does not
    arise. *)
Definition double (z : Z) : quantity :=
  match decide (round53 (round53 z) = round53 z),
        decide (finite (round53 z) = true) with
  | left H, left F => Quantity (round53 z) H F
  | _, _ => Quantity 0 eq_refl eq_refl
  end.

(** [cart[key] = v] for a number [v], on an object that [JSON.parse] or
    [{}] made: the key [__proto__], when it is not an own property,
    reaches the setter of [Object.prototype], which ignores a number and
    creates no property. *)
Definition assign (key : jsstring) (v : Z) (c : Cart) : Cart :=
  if bool_decide (key = js "__proto__" ∧ c !! key = None) then c
  else <[key := v]> c.

Record CartResponse := { success : bool; cart : Cart }.

Section CartStore.
Context {num : Type} {arith : Number num} {cart_codec : JSON Cart}.

Definition _readCart : M Cart :=
  try_catch
    (raw ← getItem fh_cart;
     match raw with
     | None | Some [] => mret ∅
     | Some text => JSON_parse text
     end)
    (λ _, mret ∅).

Definition _writeCart (c : Cart) : M () :=
  setItem fh_cart (JSON_stringify c).

(** The default [qty = 1] of the source is for a call that omits the
    argument; every caller passes it. *)
Definition addToCart (productId : jsstring) (qty : quantity) : M CartResponse :=
  match find_product productId with
  | None => throw NotFound
  | Some _ =>
      c ← _readCart;
      let c := assign productId (plus (or_zero (c !! productId)) qty) c in
      _writeCart c;;
      mret {| success := true; cart := c |}
  end.

Definition setCartQuantity (productId : jsstring) (qty : quantity) : M CartResponse :=
  c ← _readCart;
  let c := if bool_decide (qty ≤ 0)%Z then delete productId c
           else assign productId qty c in
  _writeCart c;;
  mret {| success := true; cart := c |}.

Definition removeFromCart (productId : jsstring) : M CartResponse :=
  c ← _readCart;
  let c := delete productId c in
  _writeCart c;;
  mret {| success := true; cart := c |}.
End CartStore.

(** The mapping a read of the cart key returns. *)
Definition persisted {cart_codec : JSON Cart} (ls : Storage) : Cart :=
  match fst (_readCart ls) with
  | Ok c => c
  | Throw _ => ∅
  end.

(** Every stored quantity is positive. *)
Definition positive_quantities (c : Cart) : Prop :=
  map_Forall (λ _ q, (0 < q)%Z) c.

(** The cart of the worked example, [{p1: 2, p3: 1}]. *)
Definition example_cart : Cart := {[ js "p1" := 2%Z; js "p3" := 1%Z ]}.

(** ** Priced cart *)

(** A line of the priced cart, [{ ...p, qty, total }]. *)
Record CartItem (num : Type) := {
  product : Product num;
  qty : Z;
  line_total : num;
}.
Arguments product {num} _.
Arguments qty {num} _.
Arguments line_total {num} _.

Record CartView (num : Type) := {
  items : list (CartItem num);
  subtotal : num;
  shipping : num;
  tax : num;
  total : num;
}.
Arguments items {num} _.
Arguments subtotal {num} _.
Arguments shipping {num} _.
Arguments tax {num} _.
Arguments total {num} _.

Record CheckoutResponse := {
  checkout_success : bool;
  orderId : jsstring;
  message : jsstring;
}.

Section Pricing.
Context {num : Type} {arith : Number num} {cart_codec : JSON Cart}.

(** One entry [[pid, qty]] of [Object.entries(cart)] as a line. *)
Definition cart_line (entry : jsstring * Z) : CartItem num :=
  let '(pid, qty) := entry in
  let p := default {| id := pid; name := pid; price := lit 0 0; img := None |}
                   (find_product pid) in
  {| product := p; qty := qty;
     line_total := toFixed2 (mul (price p) (lit qty 0)) |}.

(** The summary, from the lines. *)
Definition summary (items : list (CartItem num)) : CartView num :=
  let subtotal := foldl (λ s it, add s (line_total it)) (lit 0 0) items in
  let shipping := if bool_decide (0 < length items) then lit 500 2 else lit 0 0 in
  let tax := toFixed2 (mul subtotal (lit 7 2)) in
  let total := toFixed2 (add (add subtotal shipping) tax) in
  {| items := items; subtotal := toFixed2 subtotal; shipping := shipping;
     tax := tax; total := total |}.

Definition getCart : M (CartView num) :=
  c ← _readCart;
  mret (summary (cart_line <$> map_to_list c)).

(** [now] is the reading of [Date.now()]; the order data is not used. *)
Definition checkout (now : Z) : M CheckoutResponse :=
  c ← _readCart;
  if bool_decide (length (map_to_list c).*1 = 0) then throw EmptyCart
  else
    let orderId := js "ORD-" ++ String_of_Z now in
    _writeCart ∅;;
    mret {| checkout_success := true; orderId := orderId;
            message := js "Payment successful (fake)." |}.
End Pricing.

(** ** Session *)

Record User := { email : jsstring }.

Record LoginResponse := {
  login_success : bool;
  token : jsstring;
  user : User;
}.

(** The base64 alphabet and [btoa]. *)
Definition b64_alphabet : jsstring :=
  js "ABCDEFGHIJKLMNOPQRSTUVWXYZabcdefghijklmnopqrstuvwxyz0123456789+/".

Definition b64_char (i : N) : N := default 61%N (b64_alphabet !! N.to_nat i).

Fixpoint base64 (bytes : list N) : jsstring :=
  match bytes with
  | [] => []
  | [a] =>
      [b64_char (a / 4); b64_char ((a mod 4) * 16); 61; 61]%N
  | [a; b] =>
      [b64_char (a / 4); b64_char ((a mod 4) * 16 + b / 16);
       b64_char ((b mod 16) * 4); 61]%N
  | a :: b :: c :: rest =>
      (b64_char (a / 4) :: b64_char ((a mod 4) * 16 + b / 16)
       :: b64_char ((b mod 16) * 4 + c / 64) :: b64_char (c mod 64)
       :: base64 rest)%N
  end.

Definition btoa (data : jsstring) : M jsstring :=
  if forallb (λ c, c <=? 255)%N data then mret (base64 data)
  else throw InvalidCharacterError.

(** The strings [btoa] accepts. *)
Definition latin1 (s : jsstring) : Prop := Forall (λ c, (c ≤ 255)%N) s.

(** An address written in Persian script. *)
Definition persian_email : jsstring :=
  [1593; 1604; 1740]%N ++ js "@example.com".

Section Session.
Context {user_codec : JSON User}.

(** [now] is the reading of [Date.now()]. *)
Definition login (email password : jsstring) (now : Z) : M LoginResponse :=
  code ← btoa (email ++ js ":" ++ String_of_Z now);
  let token := js "fake-token-" ++ code in
  setItem fh_token token;;
  setItem fh_user (JSON_stringify {| email := email |});;
  mret {| login_success := true; token := token; user := {| email := email |} |}.

Definition logout : M bool :=
  removeItem fh_token;;
  removeItem fh_user;;
  mret true.

(** [JSON.parse(localStorage.getItem('fh_user')) || null]: a missing key
    reads as [null], which parses to [null]. *)
Definition getCurrentUser : M (option User) :=
  try_catch
    (raw ← getItem fh_user;
     match raw with
     | Some text => u ← JSON_parse text; mret (Some u)
     | None => mret None
     end)
    (λ _, mret None).
End Session.

(** ** The arithmetic of the amounts *)

(** *** IEEE-754 binary64, round to nearest, ties to even *)
Module Binary64.
Definition prec : Z := 53.
Definition emax : Z := 1024.

(** An integer as an exact (not normalised) operand. *)
Definition integer (z : Z) : spec_float :=
  match z with
  | Z0 => S754_zero false
  | Zpos p => S754_finite false p 0
  | Zneg p => S754_finite true p 0
  end.

(** The number a decimal text denotes: the double nearest to [m / 10^d]. *)
Definition decimal (m : Z) (d : nat) : spec_float :=
  SFdiv prec emax (integer m) (integer (10 ^ Z.of_nat d)).

(** [x.toFixed(2)] prints the integer [n] of hundredths nearest to the
    exact value of [|x|], the larger one on a tie, with the sign of [x];
    from [1e21] on it prints [x] as [String(x)].  The unary [+] reads the
    text back. *)
Definition hundredths (m : positive) (e : Z) : Z :=
  if (0 <=? e)%Z then Z.pos m * 2 ^ e * 100
  else (200 * Z.pos m + 2 ^ (- e)) / 2 ^ (1 - e).

Definition fixed2 (x : spec_float) : spec_float :=
  match x with
  | S754_nan => S754_nan
  | S754_infinity s => S754_infinity s
  | S754_zero _ => S754_zero false
  | S754_finite s m e =>
      if ((0 <=? e) && (10 ^ 21 <=? Z.pos m * 2 ^ e))%Z then x
      else
        match hundredths m e with
        | Zpos n => SFdiv prec emax (S754_finite s n 0) (integer 100)
        | _ => S754_zero s
        end
  end.

Global Instance number : Number spec_float := {|
  lit := decimal;
  add := SFadd prec emax;
  mul := SFmul prec emax;
  toFixed2 := fixed2;
|}.

Global Instance spec_float_eq_dec : EqDecision spec_float.
Proof. solve_decision. Defined.

(** The double of an integer, and its normal form for a positive integer
    below 2^53. *)
Definition of_Z (n : Z) : spec_float := binary_normalize prec emax n 0 false.

Definition normal (n : Z) : spec_float :=
  let d := (Z.log2 n + 1)%Z in
  S754_finite false (Z.to_pos (n * 2 ^ (53 - d))) (d - 53).

(** The integer nearest to [a / b], a tie going to the even one. *)
Definition nearest (a b : Z) : Z :=
  let h := (a / b)%Z in
  let r := (a mod b)%Z in
  if (b <? 2 * r)%Z || ((b =? 2 * r)%Z && Z.odd h) then (h + 1)%Z else h.

(** The double of a rounded significand [M] of 53 bits at the exponent
    [e]; rounding up may have reached [2^53], which is [2^52] at the next
    exponent. *)
Definition pack (s : bool) (M e : Z) : spec_float :=
  if (M =? 2 ^ 53)%Z then S754_finite s (Z.to_pos (2 ^ 52)) (e + 1)
  else S754_finite s (Z.to_pos M) e.
End Binary64.

(** *** Exact rational arithmetic *)
Module Exact.
Definition decimal (m : Z) (d : nat) : Qc :=
  (Qc_of_Z m / Qc_of_Z (10 ^ Z.of_nat d))%Qc.

(** Rounding to hundredths, a tie away from zero. *)
Definition hundredths (x : Qc) : Z :=
  if bool_decide (0 ≤ x)%Qc then Qfloor (x * decimal 100 0 + decimal 5 1)%Qc
  else (- Qfloor (- x * decimal 100 0 + decimal 5 1)%Qc)%Z.

Definition fixed2 (x : Qc) : Qc := decimal (hundredths x) 2.

Global Instance number : Number Qc := {|
  lit := decimal;
  add := Qcplus;
  mul := Qcmult;
  toFixed2 := fixed2;
|}.
End Exact.

(** ** The catalog in whole dollars *)

(** The catalog price of an id, 0 for an id that is not in the catalog. *)
Definition dollars (productId : jsstring) : Z :=
  if bool_decide (productId = js "p1") then 45
  else if bool_decide (productId = js "p2") then 70
  else if bool_decide (productId = js "p3") then 60
  else if bool_decide (productId = js "p4") then 30
  else 0.

Definition line_dollars (entry : jsstring * Z) : Z :=
  (dollars entry.1 * entry.2)%Z.

Definition sumZ (l : list Z) : Z := foldr Z.add 0%Z l.

(** The subtotal of a stored mapping. *)
Definition cart_dollars (c : Cart) : Z :=
  sumZ (line_dollars <$> map_to_list c).

(** ** The page

    The listeners of the page, each as the storage transformation it
    performs and the text it shows.  [trim] and [parseInt10] are
    [String.prototype.trim] and [parseInt(text, 10)]; integers are read
    exactly. *)

Definition is_space (c : N) : bool :=
  bool_decide (c ∈ [9; 10; 11; 12; 13; 32; 160; 5760; 8192; 8193; 8194; 8195;
                    8196; 8197; 8198; 8199; 8200; 8201; 8202; 8232; 8233;
                    8239; 8287; 12288; 65279]%N).

Fixpoint trim_start (s : jsstring) : jsstring :=
  match s with
  | c :: rest => if is_space c then trim_start rest else s
  | [] => []
  end.

Definition trim (s : jsstring) : jsstring :=
  reverse (trim_start (reverse (trim_start s))).

(** [!s] for a string [s]. *)
Definition blank (s : jsstring) : bool :=
  match s with [] => true | _ :: _ => false end.

Definition is_digit (c : N) : bool := (48 <=? c)%N && (c <=? 57)%N.

Fixpoint read_digits (acc : Z) (s : jsstring) : Z * jsstring :=
  match s with
  | c :: rest =>
      if is_digit c then read_digits (10 * acc + (Z.of_N c - 48))%Z rest
      else (acc, s)
  | [] => (acc, [])
  end.

(** The integer that [parseInt(text, 10)] reads, [None] when it reads
    none. *)
Definition decimal_integer (text : jsstring) : option Z :=
  let s := trim_start text in
  let '(negative, s) := match s with
                        | 45%N :: rest => (true, rest)
                        | 43%N :: rest => (false, rest)
                        | _ => (false, s)
                        end in
  match s with
  | c :: _ =>
      if is_digit c
      then Some (if negative then - (read_digits 0 s).1 else (read_digits 0 s).1)%Z
      else None
  | [] => None
  end.

(** [parseInt(text, 10)]: the double nearest to that integer; [None] is
    [NaN]. *)
Definition parseInt10 (text : jsstring) : option quantity :=
  double <$> decimal_integer text.

(** [cart.items.reduce((s, it) => s + it.qty, 0)] *)
Definition totalItems {num} (lines : list (CartItem num)) : Z :=
  foldl (λ s it, plus s (qty it)) 0%Z lines.

(** The text of the cart badge for a count. *)
Definition cart_count_text (n : Z) : jsstring :=
  js "Cart: " ++ String_of_Z n ++ js " item"
  ++ (if bool_decide (n ≠ 1%Z) then js "s" else []).

(** [MOCK_PRODUCTS.find(p => p.name === name)], [None] for [null]. *)
Definition find_by_name {num} {arith : Number num} (heading : option jsstring)
    : option (Product num) :=
  find (λ p, bool_decide (Some (name p) = heading)) MOCK_PRODUCTS.

(** The sum of the stored quantities. *)
Definition cart_count (c : Cart) : Z := sumZ (map_to_list c).*2.

Section Page.
Context {num : Type} {arith : Number num}.
Context {cart_codec : JSON Cart} {user_codec : JSON User}.

(** The message and the string form the host gives an exception that is
    not an [Error] of the program. *)
Variables host_message host_string : exn → jsstring.

Definition message_of (err : exn) : jsstring :=
  match err with
  | Error message => message
  | _ => host_message err
  end.

Definition string_of (err : exn) : jsstring :=
  match err with
  | Error [] => js "Error"
  | Error message => js "Error: " ++ message
  | _ => host_string err
  end.

(** [err.message || err], in a string concatenation. *)
Definition message_or_string (err : exn) : jsstring :=
  if blank (message_of err) then string_of err else message_of err.

Definition renderCartSummary : M jsstring :=
  v ← getCart (num:=num);
  mret (cart_count_text (totalItems (items v))).

(** The listener of a generated add-to-cart button, with the text it
    alerts. *)
Definition onAddToCartClick (pid : jsstring) : M jsstring :=
  try_catch (addToCart (num:=num) pid (double 1);;
             mret (js "Item added to cart (fake)."))
            (λ err, mret (js "Error: " ++ message_or_string err)).

(** The listener of a static card button; [heading] is the text of the
    card's [h3], if there is one. *)
Definition onStaticAddClick (heading : option jsstring) : M jsstring :=
  match find_by_name (num:=num) (trim <$> heading) with
  | None => mret (js "Product not recognized for fake cart.")
  | Some prod =>
      try_catch (addToCart (num:=num) (id prod) (double 1);;
                 mret (name prod ++ js " added to cart (fake)."))
                (λ err, mret (js "Error: " ++ message_of err))
  end.

(** [let q = parseInt(input.value, 10) || 1; if (q < 1) q = 1;] *)
Definition asked_quantity (text : jsstring) : quantity :=
  let q := match parseInt10 text with
           | Some q => if bool_decide (units q = 0%Z) then double 1 else q
           | None => double 1
           end in
  if bool_decide (q < 1)%Z then double 1 else q.

Definition onQuantityChange (pid value : jsstring) : M CartResponse :=
  setCartQuantity pid (asked_quantity value).

Definition onRemoveClick (pid : jsstring) : M CartResponse := removeFromCart pid.

(** The order data is passed to [checkout], which does not use it. *)
Definition onCheckoutSubmit (name_field email_field address_field card_field : jsstring)
    (now : Z) : M jsstring :=
  if blank (trim name_field) || blank (trim email_field)
     || blank (trim address_field) || blank (trim card_field)
  then mret (js "Please fill all fields (fake).")
  else try_catch
         (res ← checkout now;
          mret (js "Order placed! Order ID: " ++ orderId res ++ js " (fake)."))
         (λ err, mret (js "Checkout failed: " ++ message_or_string err)).

Definition onLoginSubmit (email_field password_field : jsstring) (now : Z)
    : M jsstring :=
  if blank (trim email_field) || blank password_field
  then mret (js "Please enter email and password (fake).")
  else try_catch
         (res ← login (trim email_field) password_field now;
          mret (js "Welcome (fake): " ++ email (user res)))
         (λ err, mret (js "Login failed: " ++ message_or_string err)).

(** The events these listeners serve, and the storage after one and after
    a sequence of them. *)
Inductive event :=
  | AddToCartClick (pid : jsstring)
  | StaticAddClick (heading : option jsstring)
  | QuantityChange (pid value : jsstring)
  | RemoveClick (pid : jsstring)
  | CheckoutSubmit (name_field email_field address_field card_field : jsstring)
      (now : Z)
  | LoginSubmit (email_field password_field : jsstring) (now : Z).

Definition dispatch (ev : event) (ls : Storage) : Storage :=
  match ev with
  | AddToCartClick pid => snd (onAddToCartClick pid ls)
  | StaticAddClick heading => snd (onStaticAddClick heading ls)
  | QuantityChange pid value => snd (onQuantityChange pid value ls)
  | RemoveClick pid => snd (onRemoveClick pid ls)
  | CheckoutSubmit n e a c now => snd (onCheckoutSubmit n e a c now ls)
  | LoginSubmit e p now => snd (onLoginSubmit e p now ls)
  end.

Definition dispatch_all (evs : list event) (ls : Storage) : Storage :=
  foldl (λ ls ev, dispatch ev ls) ls evs.
End Page.

(** A field text whose integer, if it starts with one, has a finite
    nearest double (they end near 1.8e308), and an event with such a
    text. *)
Definition in_range (text : jsstring) : Prop :=
  ∀ n, decimal_integer text = Some n → finite (round53 n) = true.

Definition event_in_range (ev : event) : Prop :=
  match ev with
  | QuantityChange _ text => in_range text
  | _ => True
  end.

(** ** An executable codec

    The development relies on the two [JSON] laws only; this codec, which
    has them, makes the model run.  It writes a value as [#] followed by
    the binary digits of its code. *)
Module Codec.
Fixpoint digits (p : positive) : jsstring :=
  match p with
  | xH => []
  | xO p => 48%N :: digits p
  | xI p => 49%N :: digits p
  end.

Fixpoint number (text : jsstring) : option positive :=
  match text with
  | [] => Some xH
  | c :: text =>
      p ← number text;
      if bool_decide (c = 48%N) then Some (xO p)
      else if bool_decide (c = 49%N) then Some (xI p)
      else None
  end.

Definition write {A} `{Countable A} (a : A) : jsstring :=
  35%N :: digits (encode a).

Definition read {A} `{Countable A} (text : jsstring) : option A :=
  match text with
  | 35%N :: ds => number ds ≫= decode
  | _ => None
  end.

Global Instance user_eq_dec : EqDecision User.
Proof. solve_decision. Defined.
Global Instance user_countable : Countable User :=
  inj_countable' email Build_User (λ u, match u with Build_User _ => eq_refl end).

End Codec.

(** * Properties *)

(** ** Running a computation *)

Lemma bind_Ok {A B} (m : M A) (f : A → M B) ls a ls' :
  m ls = (Ok a, ls') → (m ≫= f) ls = f a ls'.
Proof. intros E. unfold mbind, M_bind. by rewrite E. Qed.

Lemma bind_Throw {A B} (m : M A) (f : A → M B) ls e ls' :
  m ls = (Throw e, ls') → (m ≫= f) ls = (Throw e, ls').
Proof. intros E. unfold mbind, M_bind. by rewrite E. Qed.

Lemma js_inj : Inj (=) (=) js.
Proof.
  intros s. unfold js. induction s as [|a s IH]; intros [|b t] E; simpl in E;
    try discriminate; [done|].
  injection E as E1 E2. apply IH in E2 as ->.
  f_equal. rewrite <- (Ascii.ascii_N_embedding a), <- (Ascii.ascii_N_embedding b).
  by rewrite E1.
Qed.

Lemma String_of_Z_inj : Inj (=) (=) String_of_Z.
Proof. intros x y E. apply js_inj in E. by apply (inj pretty) in E. Qed.

(** ** The catalog *)

Lemma find_id_None {num} (productId : jsstring) (l : list (Product num)) :
  find (λ p, bool_decide (id p = productId)) l = None ↔ productId ∉ id <$> l.
Proof.
  induction l as [|p l IH]; simpl.
  - split; [intros _; apply not_elem_of_nil | done].
  - rewrite not_elem_of_cons. case_bool_decide as E.
    + split; [done | intros [? _]; congruence].
    + rewrite IH. split; [intros ?; split; [congruence | done] | by intros [_ ?]].
Qed.

Lemma find_id_Some {num} (productId : jsstring) (l : list (Product num)) p :
  find (λ p, bool_decide (id p = productId)) l = Some p → id p = productId.
Proof.
  induction l as [|p' l IH]; simpl; [done|].
  case_bool_decide as E; [by intros [= <-] | done].
Qed.

Lemma find_product_None {num} {arith : Number num} productId :
  find_product productId = None ↔ productId ∉ product_ids.
Proof. apply find_id_None. Qed.

(** ** What the storage holds *)

Section Persisted.
Context {cart_codec : JSON Cart}.

Lemma _readCart_persisted ls : _readCart ls = (Ok (persisted ls), ls).
Proof.
  unfold persisted, _readCart, try_catch, getItem, JSON_parse, mbind, M_bind.
  destruct (ls !! fh_cart) as [[|u text]|]; simpl; try done.
  by destruct (JSON_text (u :: text)).
Qed.

Lemma persisted_rejected ls raw :
  ls !! fh_cart = Some raw → JSON_text (A:=Cart) raw = None → persisted ls = ∅.
Proof.
  intros E R.
  unfold persisted, _readCart, try_catch, getItem, JSON_parse, mbind, M_bind.
  rewrite E. destruct raw; simpl; [done|]. by rewrite R.
Qed.

Lemma persisted_missing ls : ls !! fh_cart = None → persisted ls = ∅.
Proof.
  intros E.
  unfold persisted, _readCart, try_catch, getItem, JSON_parse, mbind, M_bind.
  by rewrite E.
Qed.

Lemma JSON_stringify_nonempty (c : Cart) : JSON_stringify c ≠ [].
Proof.
  intros E. pose proof (JSON_text_stringify c) as R.
  rewrite E, JSON_text_empty in R. done.
Qed.

Lemma persisted_write ls c : persisted (<[fh_cart := JSON_stringify c]> ls) = c.
Proof.
  unfold persisted, _readCart, try_catch, getItem, JSON_parse, mbind, M_bind.
  rewrite lookup_insert_eq.
  pose proof (JSON_stringify_nonempty c) as Hne.
  destruct (JSON_stringify c) as [|u text] eqn:E; [done|]. simpl.
  by rewrite <- E, JSON_text_stringify.
Qed.

Lemma _writeCart_run ls c :
  _writeCart c ls = (Ok (), <[fh_cart := JSON_stringify c]> ls).
Proof. done. Qed.

Lemma or_zero_default (v : option Z) : or_zero v = default 0%Z v.
Proof. destruct v as [q|]; simpl; [|done]. by case_bool_decide. Qed.
End Persisted.

(** ** Quantities *)

Section Rounding.
Local Open Scope Z_scope.

(** An integer whose bits below its 53 leading ones are zero is a double. *)
Lemma round53_exact z :
  Z.abs z mod 2 ^ Z.max 0 (Z.log2 (Z.abs z) - 52) = 0 → round53 z = z.
Proof.
  intros Hr. unfold round53. cbn zeta. rewrite Hr.
  set (s := Z.max 0 (Z.log2 (Z.abs z) - 52)) in *.
  assert (0 < 2 ^ s) as Hp by (apply Z.pow_pos_nonneg; lia).
  assert ((2 ^ s <? 2 * 0) = false) as -> by (apply Z.ltb_ge; lia).
  assert ((2 ^ s =? 2 * 0) = false) as -> by (apply Z.eqb_neq; lia).
  cbn [orb andb].
  pose proof (Z.div_mod (Z.abs z) (2 ^ s) ltac:(lia)) as Hdm.
  rewrite Hr, Z.add_0_r, Z.mul_comm in Hdm. rewrite <- Hdm. lia.
Qed.

Lemma round53_small z : Z.abs z ≤ 2 ^ 53 → round53 z = z.
Proof.
  intros Hz. apply round53_exact.
  destruct (decide (Z.abs z = 2 ^ 53)) as [->|Hne]; [done|].
  assert (Z.log2 (Z.abs z) ≤ 52) as Hl.
  { destruct (decide (Z.abs z = 0)) as [->|H0]; [done|].
    assert (Z.log2 (Z.abs z) < 53); [|lia].
    apply Z.log2_lt_pow2; lia. }
  rewrite Z.max_l by lia. apply Z.mod_1_r.
Qed.

(** The leading 53 bits of a number of more than 53 bits. *)
Lemma leading_bits a :
  2 ^ 53 ≤ a →
  let s := Z.log2 a - 52 in
  0 < s ∧ 2 ^ 52 ≤ a / 2 ^ s < 2 ^ 53.
Proof.
  intros Ha s.
  assert (0 < a) as Hpos by lia.
  pose proof (Z.log2_spec a Hpos) as [Hlo Hhi].
  assert (53 ≤ Z.log2 a) as Hl by (apply Z.log2_le_pow2; lia).
  assert (0 < s) as Hs by (subst s; lia). split; [done|].
  assert (0 < 2 ^ s) as Hp by (apply Z.pow_pos_nonneg; lia).
  assert (2 ^ Z.log2 a = 2 ^ 52 * 2 ^ s) as E.
  { rewrite <- Z.pow_add_r by lia. f_equal. subst s. lia. }
  assert (2 ^ Z.succ (Z.log2 a) = 2 ^ 53 * 2 ^ s) as E'.
  { rewrite <- Z.pow_add_r by lia. f_equal. subst s. lia. }
  split.
  - apply Z.div_le_lower_bound; [done|]. rewrite Z.mul_comm, <- E. done.
  - apply Z.div_lt_upper_bound; [done|]. rewrite Z.mul_comm, <- E'. done.
Qed.

(** A significand of 53 bits, or [2^53], shifted left is a double. *)
Lemma shifted_exact h s :
  0 ≤ s → 2 ^ 52 ≤ h ≤ 2 ^ 53 →
  (h * 2 ^ s) mod 2 ^ Z.max 0 (Z.log2 (h * 2 ^ s) - 52) = 0.
Proof.
  intros Hs Hh.
  assert (0 < 2 ^ s) as Hp by (apply Z.pow_pos_nonneg; lia).
  rewrite Z.log2_mul_pow2 by lia.
  destruct (decide (h = 2 ^ 53)) as [->|Hne].
  - change (Z.log2 (2 ^ 53)) with 53. rewrite Z.max_r by lia.
    replace (s + 53 - 52) with (s + 1) by lia.
    rewrite <- Z.pow_add_r by lia.
    replace (53 + s) with (52 + (s + 1)) by lia.
    rewrite Z.pow_add_r by lia. apply Z.mod_mul.
    assert (0 < 2 ^ (s + 1)) by (apply Z.pow_pos_nonneg; lia). lia.
  - assert (Z.log2 h = 52) as ->.
    { apply Z.log2_unique; [lia|]. change (2 ^ Z.succ 52) with (2 ^ 53). lia. }
    rewrite Z.max_r by lia. replace (s + 52 - 52) with s by lia.
    apply Z.mod_mul. lia.
Qed.

Lemma round53_abs z :
  ∃ h s, 0 ≤ s ∧ Z.abs (round53 z) = h * 2 ^ s
         ∧ (s = 0 ∧ h = Z.abs z ∧ h < 2 ^ 53 ∨ 2 ^ 52 ≤ h ≤ 2 ^ 53).
Proof.
  destruct (decide (Z.abs z < 2 ^ 53)) as [Hsmall|Hbig].
  - exists (Z.abs z), 0. rewrite round53_small by lia.
    split; [done|]. split; [lia|]. by left.
  - destruct (leading_bits (Z.abs z) ltac:(lia)) as [Hs Hh].
    unfold round53. cbn zeta. rewrite Z.max_r by lia.
    set (s := Z.log2 (Z.abs z) - 52) in *.
    set (h := Z.abs z / 2 ^ s) in *.
    set (up := _ || _). clearbody up.
    assert (0 < 2 ^ s) as Hp by (apply Z.pow_pos_nonneg; lia).
    exists (if up then h + 1 else h), s. split; [lia|]. split.
    + assert (0 ≤ (if up then h + 1 else h) * 2 ^ s) as Hy
        by (destruct up; nia).
      set (y := (if up then h + 1 else h) * 2 ^ s) in *. clearbody y.
      destruct (Z.sgn_spec z) as [[? ->]|[[? ->]|[? ->]]]; lia.
    + right. destruct up; lia.
Qed.

Lemma round53_idem z : round53 (round53 z) = round53 z.
Proof.
  destruct (round53_abs z) as (h & s & Hs & E & [(-> & -> & Hh)|Hh]).
  - apply round53_small. rewrite E. lia.
  - apply round53_exact. rewrite E. by apply shifted_exact.
Qed.

Lemma round53_pos z : 0 < z → 0 < round53 z.
Proof.
  intros Hz. unfold round53. cbn zeta.
  set (s := Z.max 0 (Z.log2 (Z.abs z) - 52)).
  assert (0 < 2 ^ s) as Hp by (apply Z.pow_pos_nonneg; lia).
  assert (2 ^ s ≤ Z.abs z) as Hle.
  { subst s. rewrite Z.abs_eq by lia.
    pose proof (Z.log2_spec z Hz) as [Hlo _].
    pose proof (Z.log2_nonneg z) as Hn.
    etrans; [|exact Hlo]. apply Z.pow_le_mono_r; lia. }
  assert (1 ≤ Z.abs z / 2 ^ s) as Hh
    by (apply Z.div_le_lower_bound; lia).
  rewrite Z.sgn_pos by done.
  destruct (_ || _); nia.
Qed.

Lemma round53_opp z : round53 (- z) = - round53 z.
Proof. unfold round53. rewrite Z.abs_opp, Z.sgn_opp. cbn zeta. lia. Qed.

Lemma round53_sgn z : Z.sgn (round53 z) = Z.sgn z.
Proof.
  destruct (Z.lt_trichotomy z 0) as [Hz|[->|Hz]]; [|done|].
  - replace z with (- - z) by lia. rewrite round53_opp.
    pose proof (round53_pos (- z) ltac:(lia)). lia.
  - pose proof (round53_pos z Hz). lia.
Qed.

Lemma plus_small a b : Z.abs (a + b) ≤ 2 ^ 53 → plus a b = a + b.
Proof. apply round53_small. Qed.

Lemma plus_pos a b : 0 ≤ a → 0 < b → 0 < plus a b.
Proof. intros Ha Hb. apply round53_pos. lia. Qed.

Lemma plus_0_l (q : quantity) : plus 0 q = q.
Proof. unfold plus. rewrite Z.add_0_l. apply units_double. Qed.

Lemma double_units z : finite (round53 z) = true → units (double z) = round53 z.
Proof.
  intros F. unfold double. destruct (decide _) as [H|H].
  - by destruct (decide _).
  - destruct H. apply round53_idem.
Qed.

Lemma double_small z : Z.abs z ≤ 2 ^ 53 → units (double z) = z.
Proof.
  intros Hz. rewrite double_units; rewrite round53_small by done; [done|].
  unfold finite. apply Z.ltb_lt.
  assert (2 ^ 53 < 2 ^ 1024) by (apply Z.pow_lt_mono_r; lia). lia.
Qed.
End Rounding.

(** [cart[key] = v] is an insertion except for [__proto__]. *)
Lemma assign_insert (key : jsstring) (v : Z) (c : Cart) :
  key ≠ js "__proto__" ∨ is_Some (c !! key) → assign key v c = <[key := v]> c.
Proof.
  intros H. unfold assign. rewrite bool_decide_eq_false_2; [done|].
  intros [-> E]. destruct H as [H|[q H]]; [done | congruence].
Qed.


Lemma assign_cases (key : jsstring) (v : Z) (c : Cart) :
  assign key v c = c ∨ assign key v c = <[key := v]> c.
Proof. unfold assign. case_bool_decide; [by left | by right]. Qed.

Lemma assign_other (key other : jsstring) (v : Z) (c : Cart) :
  other ≠ key → assign key v c !! other = c !! other.
Proof.
  intros Hne. destruct (assign_cases key v c) as [->| ->]; [done|].
  by apply lookup_insert_ne.
Qed.

Lemma catalog_not_proto {num} {arith : Number num} productId :
  productId ∈ product_ids (num:=num) → productId ≠ js "__proto__".
Proof.
  intros Hin ->. revert Hin. apply (bool_decide_unpack _). by vm_compute.
Qed.

(** ** Cart store *)

Section CartStoreFacts.
Context {num : Type} {arith : Number num} {cart_codec : JSON Cart}.

Lemma addToCart_known productId (qty : quantity) ls :
  productId ∈ product_ids →
  let c := <[productId := plus (default 0%Z (persisted ls !! productId)) qty]>
             (persisted ls) in
  addToCart (num:=num) productId qty ls
  = (Ok {| success := true; cart := c |}, <[fh_cart := JSON_stringify c]> ls).
Proof.
  intros Hin. unfold addToCart.
  destruct (find_product productId) eqn:Hf.
  - rewrite (bind_Ok _ _ _ _ _ (_readCart_persisted ls)).
    rewrite or_zero_default, assign_insert; [done|].
    left. by eapply catalog_not_proto.
  - by apply find_product_None in Hf.
Qed.

Lemma addToCart_unknown productId qty ls :
  productId ∉ product_ids →
  addToCart (num:=num) productId qty ls = (Throw NotFound, ls).
Proof.
  intros Hout. unfold addToCart.
  apply find_product_None in Hout. by rewrite Hout.
Qed.

Lemma setCartQuantity_run productId (qty : quantity) ls :
  let c := if bool_decide (qty ≤ 0)%Z then delete productId (persisted ls)
           else assign productId qty (persisted ls) in
  setCartQuantity productId qty ls
  = (Ok {| success := true; cart := c |}, <[fh_cart := JSON_stringify c]> ls).
Proof.
  unfold setCartQuantity.
  by rewrite (bind_Ok _ _ _ _ _ (_readCart_persisted ls)).
Qed.

Lemma removeFromCart_run productId ls :
  let c := delete productId (persisted ls) in
  removeFromCart productId ls
  = (Ok {| success := true; cart := c |}, <[fh_cart := JSON_stringify c]> ls).
Proof.
  unfold removeFromCart.
  by rewrite (bind_Ok _ _ _ _ _ (_readCart_persisted ls)).
Qed.

Lemma keys_empty (c : Cart) : length (map_to_list c).*1 = 0 ↔ c = ∅.
Proof.
  rewrite length_fmap, length_zero_iff_nil. apply map_to_list_empty_iff.
Qed.

Lemma checkout_empty now ls :
  persisted ls = ∅ → checkout now ls = (Throw EmptyCart, ls).
Proof.
  intros E. unfold checkout.
  rewrite (bind_Ok _ _ _ _ _ (_readCart_persisted ls)).
  rewrite bool_decide_eq_true_2; [done | by apply keys_empty].
Qed.

Lemma checkout_nonempty now ls :
  persisted ls ≠ ∅ →
  checkout now ls
  = (Ok {| checkout_success := true;
           orderId := js "ORD-" ++ String_of_Z now;
           message := js "Payment successful (fake)." |},
     <[fh_cart := JSON_stringify (∅ : Cart)]> ls).
Proof.
  intros E. unfold checkout.
  rewrite (bind_Ok _ _ _ _ _ (_readCart_persisted ls)).
  rewrite bool_decide_eq_false_2; [done | by rewrite keys_empty].
Qed.

(** The lines of the priced cart carry the stored ids. *)
Lemma cart_line_id (entry : jsstring * Z) :
  id (product (cart_line (num:=num) entry)) = entry.1.
Proof.
  destruct entry as [pid q]. unfold cart_line. simpl.
  destruct (find_product pid) as [p|] eqn:Hf; simpl; [|done].
  by apply find_id_Some in Hf.
Qed.

Lemma getCart_run ls :
  getCart (num:=num) ls
  = (Ok (summary (cart_line <$> map_to_list (persisted ls))), ls).
Proof.
  unfold getCart. by rewrite (bind_Ok _ _ _ _ _ (_readCart_persisted ls)).
Qed.

Lemma getCart_item_ids ls :
  (λ it, id (product it)) <$> items (summary (num:=num)
                              (cart_line <$> map_to_list (persisted ls)))
  = (map_to_list (persisted ls)).*1.
Proof.
  simpl. rewrite <- list_fmap_compose. apply list_fmap_ext.
  intros i entry _. apply cart_line_id.
Qed.
End CartStoreFacts.

Section CartStoreClaims.
Context {num : Type} {arith : Number num} {cart_codec : JSON Cart}.

(** C3, as amended.  Add item fails with NotFound exactly when the product
    id is not in the catalog.  On success, with a sum inside the range of
    the doubles, the stored quantity of that id becomes the double sum of
    its previous quantity (zero when the entry is absent) and the given
    one, and the full mapping is persisted.  The double sum is the sum
    itself while that is at most 2^53 in magnitude, so two additions
    [q1], [q2] in a row raise the stored quantity by [q1 + q2] when the
    sums on the way are at most 2^53 in magnitude. *)
Theorem addToCart_adds productId ls :
  (∀ qty, fst (addToCart (num:=num) productId qty ls) = Throw NotFound
          ↔ productId ∉ product_ids)
  ∧ (productId ∈ product_ids →
     let previous := default 0%Z (persisted ls !! productId) in
     (∀ qty : quantity,
            finite (plus previous qty) = true →
        let c := <[productId := plus previous qty]> (persisted ls) in
        addToCart (num:=num) productId qty ls
        = (Ok {| success := true; cart := c |},
           <[fh_cart := JSON_stringify c]> ls)
        ∧ persisted (<[fh_cart := JSON_stringify c]> ls) = c
        ∧ (Z.abs (previous + qty) ≤ 2 ^ 53 →
           plus previous qty = (previous + qty)%Z)%Z)
     ∧ (∀ q1 q2 : quantity,
          let ls1 := snd (addToCart (num:=num) productId q1 ls) in
          let ls2 := snd (addToCart (num:=num) productId q2 ls1) in
          (Z.abs (previous + q1) ≤ 2 ^ 53)%Z →
          (Z.abs (previous + q1 + q2) ≤ 2 ^ 53)%Z →
          persisted ls1 !! productId = Some (previous + q1)%Z
          ∧ persisted ls2 !! productId = Some (previous + q1 + q2)%Z)).
Proof.
  split.
  - intros qty. split.
    + intros Hthrow Hin.
      rewrite (addToCart_known _ qty ls Hin) in Hthrow. discriminate.
    + intros Hout. by rewrite addToCart_unknown.
  - intros Hin previous. split.
    + intros qty _ c.
      split; [by apply addToCart_known|]. split; [apply persisted_write|].
      apply plus_small.
    + intros q1 q2 ls1 ls2 H1 H2.
      subst ls2 ls1. rewrite !addToCart_known by done. cbn [snd].
      rewrite !persisted_write, !lookup_insert_eq.
      change (default 0%Z (persisted ls !! productId)) with previous.
      rewrite (plus_small previous q1) by done.
      split; [done|]. by rewrite plus_small.
Qed.

(** C10.  A failed add has no effect on storage: for an id outside the
    catalog the call throws NotFound and leaves [localStorage] as it was,
    whatever it holds. *)
Theorem addToCart_NotFound_unchanged productId qty ls :
  productId ∉ product_ids →
  addToCart (num:=num) productId qty ls = (Throw NotFound, ls).
Proof. apply addToCart_unknown. Qed.


(** C7.  Remove item never fails; it deletes the entry of the id, leaves
    the stored mapping as it was when the id is absent, and a second
    removal of the same id leaves storage as the first one left it. *)
Theorem removeFromCart_idempotent productId ls :
  let ls1 := snd (removeFromCart productId ls) in
  (∃ r, removeFromCart productId ls = (Ok r, ls1))
  ∧ persisted ls1 = delete productId (persisted ls)
  ∧ (persisted ls !! productId = None → persisted ls1 = persisted ls)
  ∧ (∃ r, removeFromCart productId ls1 = (Ok r, ls1)).
Proof.
  intros ls1. subst ls1. rewrite removeFromCart_run. simpl.
  split; [by eexists|]. rewrite persisted_write.
  split; [done|]. split; [apply delete_id|].
  eexists. rewrite removeFromCart_run, persisted_write. simpl.
  rewrite delete_delete_eq, insert_insert_eq. done.
Qed.

(** C2.  Checkout on a stored mapping without entries fails with
    EmptyCart and leaves storage unchanged; on a mapping with an entry it
    persists the empty mapping and returns a confirmation whose order id
    is [ORD-] followed by the clock reading, so that checkouts at
    different clock readings get different ids. *)
Theorem checkout_clears now ls :
  (persisted ls = ∅ → checkout now ls = (Throw EmptyCart, ls))
  ∧ (persisted ls ≠ ∅ →
     ∃ r ls', checkout now ls = (Ok r, ls')
              ∧ orderId r = js "ORD-" ++ String_of_Z now
              ∧ ls' = <[fh_cart := JSON_stringify (∅ : Cart)]> ls
              ∧ persisted ls' = ∅)
  ∧ (∀ now2 ls2 r r2,
       fst (checkout now ls) = Ok r → fst (checkout now2 ls2) = Ok r2 →
       now ≠ now2 → orderId r ≠ orderId r2).
Proof.
  split; [apply checkout_empty|]. split.
  - intros Hne. eexists _, _. split; [by apply checkout_nonempty|].
    split; [done|]. split; [done | apply persisted_write].
  - intros now2 ls2 r r2 E1 E2 Hnow.
    destruct (decide (persisted ls = ∅)) as [He|Hne];
      [by rewrite checkout_empty in E1|].
    destruct (decide (persisted ls2 = ∅)) as [He2|Hne2];
      [by rewrite checkout_empty in E2|].
    rewrite checkout_nonempty in E1 by done.
    rewrite checkout_nonempty in E2 by done.
    cbn [fst] in E1, E2. injection E1 as <-. injection E2 as <-.
    cbn [orderId]. intros E. apply (app_inv_head (js "ORD-")) in E.
    by apply String_of_Z_inj in E.
Qed.

End CartStoreClaims.

(** ** Session *)

Lemma js_latin1 s : forallb (λ c, c <=? 255)%N (js s) = true.
Proof.
  unfold js. induction s as [|a s IH]; [done|].
  cbn [String.list_ascii_of_string fmap list_fmap forallb]. rewrite IH.
  pose proof (Ascii.N_ascii_bounded a) as Hb.
  assert ((Ascii.N_of_ascii a <=? 255)%N = true) as -> by (apply N.leb_le; lia).
  done.
Qed.

Lemma forallb_app_true {A} (f : A → bool) l1 l2 :
  forallb f l1 = true → forallb f l2 = true → forallb f (l1 ++ l2) = true.
Proof. intros E1 E2. by rewrite forallb_app, E1, E2. Qed.

Section SessionFacts.
Context {user_codec : JSON User}.

Lemma latin1_forallb s : latin1 s → forallb (λ c, c <=? 255)%N s = true.
Proof.
  induction 1 as [|c s Hc _ IH]; [done|]. simpl. rewrite IH.
  by apply N.leb_le in Hc as ->.
Qed.

(** Login with an email in the Latin-1 range stores the token and the
    user record and succeeds. *)
Lemma login_latin1 email password now ls :
  latin1 email →
  let token := js "fake-token-"
               ++ base64 (email ++ js ":" ++ String_of_Z now) in
  login email password now ls
  = (Ok {| login_success := true; token := token;
           user := {| email := email |} |},
     <[fh_user := JSON_stringify {| email := email |}]>
       (<[fh_token := token]> ls)).
Proof.
  intros Hl token. unfold login, btoa.
  rewrite forallb_app_true;
    [done | by apply latin1_forallb
          | apply forallb_app_true; apply js_latin1].
Qed.

(** An email with a code unit above 0xFF makes [btoa] throw before
    anything is stored. *)
Lemma login_beyond_latin1 email password now ls :
  ¬ latin1 email →
  login email password now ls = (Throw InvalidCharacterError, ls).
Proof.
  intros Hl. unfold login, btoa.
  destruct (forallb _ _) eqn:E; [|done].
  exfalso. apply Hl. rewrite forallb_app in E.
  apply andb_prop in E as [E _]. unfold latin1.
  apply Forall_forall. intros c Hc. rewrite forallb_forall in E.
  apply N.leb_le, E. by apply list_elem_of_In.
Qed.

Lemma getCurrentUser_stored ls u :
  ls !! fh_user = Some (JSON_stringify u) →
  getCurrentUser ls = (Ok (Some u), ls).
Proof.
  intros E. unfold getCurrentUser, try_catch, getItem, JSON_parse, mbind, M_bind.
  by rewrite E, JSON_text_stringify.
Qed.

Lemma getCurrentUser_missing ls :
  ls !! fh_user = None → getCurrentUser ls = (Ok None, ls).
Proof.
  intros E. unfold getCurrentUser, try_catch, getItem, mbind, M_bind.
  by rewrite E.
Qed.

Lemma getCurrentUser_rejected ls raw :
  ls !! fh_user = Some raw → JSON_text (A:=User) raw = None →
  getCurrentUser ls = (Ok None, ls).
Proof.
  intros E R. unfold getCurrentUser, try_catch, getItem, JSON_parse, mbind, M_bind.
  by rewrite E, R.
Qed.

Lemma getCurrentUser_total ls : ∃ u, getCurrentUser ls = (Ok u, ls).
Proof.
  destruct (ls !! fh_user) as [raw|] eqn:E.
  - destruct (JSON_text (A:=User) raw) as [u|] eqn:R.
    + exists (Some u).
      unfold getCurrentUser, try_catch, getItem, JSON_parse, mbind, M_bind.
      by rewrite E, R.
    + exists None. by eapply getCurrentUser_rejected.
  - exists None. by apply getCurrentUser_missing.
Qed.

Lemma logout_run ls :
  logout ls = (Ok true, delete fh_user (delete fh_token ls)).
Proof. done. Qed.

(** After a login that succeeds the current user is the one who logged
    in; after logout there is none; a second logout changes nothing. *)
Lemma login_then_getCurrentUser email password now ls :
  latin1 email →
  getCurrentUser (snd (login email password now ls))
  = (Ok (Some {| email := email |}), snd (login email password now ls)).
Proof.
  intros Hl. rewrite login_latin1 by done. cbn [snd].
  apply getCurrentUser_stored, lookup_insert_eq.
Qed.

Lemma logout_then_getCurrentUser ls :
  getCurrentUser (snd (logout ls)) = (Ok None, snd (logout ls)).
Proof.
  rewrite logout_run. cbn [snd].
  apply getCurrentUser_missing, lookup_delete_eq.
Qed.

Lemma logout_logout ls :
  logout (snd (logout ls)) = (Ok true, snd (logout ls)).
Proof.
  rewrite !logout_run. cbn [snd]. f_equal.
  apply map_eq. intros k.
  destruct (decide (k = fh_user)) as [->|Hu]; [by rewrite !lookup_delete_eq|].
  rewrite !(lookup_delete_ne _ fh_user) by done.
  destruct (decide (k = fh_token)) as [->|Ht]; [by rewrite !lookup_delete_eq|].
  by rewrite !lookup_delete_ne.
Qed.
End SessionFacts.

Section StorageReads.
Context {cart_codec : JSON Cart} {user_codec : JSON User}.

(** C6, at the input where it fails.  The code means to accept every
    email and password, yet [btoa] throws on an email outside Latin-1:
    the login is rejected, nothing is stored, and the current-user query
    answers as it did before. *)
Theorem login_persian_email_rejected password now ls :
  login persian_email password now ls = (Throw InvalidCharacterError, ls)
  ∧ getCurrentUser (snd (login persian_email password now ls))
    = getCurrentUser ls.
Proof.
  assert (login persian_email password now ls
          = (Throw InvalidCharacterError, ls)) as E.
  { apply login_beyond_latin1. intros Hl.
    apply Forall_inv in Hl. vm_compute in Hl. by apply Hl. }
  split; [done|]. by rewrite E.
Qed.

(** C8.  Reading the cart and querying the current user never throw and
    never write; stored text that does not parse reads as the empty
    mapping and as no user. *)
Theorem storage_reads_total ls :
  (∃ c, _readCart ls = (Ok c, ls))
  ∧ (∃ u, getCurrentUser ls = (Ok u, ls))
  ∧ (∀ raw, ls !! fh_cart = Some raw → JSON_text (A:=Cart) raw = None →
            _readCart ls = (Ok ∅, ls))
  ∧ (∀ raw, ls !! fh_user = Some raw → JSON_text (A:=User) raw = None →
            getCurrentUser ls = (Ok None, ls)).
Proof.
  split; [eexists; apply _readCart_persisted|].
  split; [apply getCurrentUser_total|].
  split.
  - intros raw E R. rewrite _readCart_persisted.
    by rewrite (persisted_rejected ls raw).
  - apply getCurrentUser_rejected.
Qed.
End StorageReads.

(** ** Pricing in binary64

    Whole dollars below 2^53 are doubles, and their sums are exact. *)

Module Binary64Facts.
Import Binary64.
Local Open Scope Z_scope.

Lemma digits2_log2 m : Z.pos (digits2_pos m) = Z.log2 (Z.pos m) + 1.
Proof.
  induction m as [m IH|m IH|]; simpl digits2_pos; rewrite ?Pos2Z.inj_succ, ?IH.
  - rewrite (Pos2Z.inj_xI m), Z.log2_succ_double by lia. lia.
  - rewrite (Pos2Z.inj_xO m), Z.log2_double by lia. lia.
  - done.
Qed.

Lemma iter_xO m k : Z.pos (Pos.iter xO m k) = Z.pos m * 2 ^ Z.pos k.
Proof.
  revert m. induction k as [|k IH] using Pos.peano_ind; intros m.
  - simpl. lia.
  - rewrite Pos.iter_succ, Pos2Z.inj_xO, IH, Pos2Z.inj_succ, Z.pow_succ_r by lia. lia.
Qed.

Lemma iter_pos_nat {A} (f : A → A) p x :
  SpecFloat.iter_pos f p x = Nat.iter (Pos.to_nat p) f x.
Proof.
  revert x. induction p as [p IH|p IH|]; intros x; cbn [SpecFloat.iter_pos].
  - rewrite !IH, Pos2Nat.inj_xI.
    replace (S (2 * Pos.to_nat p)) with (Pos.to_nat p + (Pos.to_nat p + 1))%nat by lia.
    by rewrite !Nat.iter_add.
  - rewrite !IH, Pos2Nat.inj_xO.
    replace (2 * Pos.to_nat p)%nat with (Pos.to_nat p + Pos.to_nat p)%nat by lia.
    by rewrite Nat.iter_add.
  - done.
Qed.

(** Shifting out zero bits is exact. *)
Lemma shr_zero_bits n m :
  Nat.iter n shr_1 {| shr_m := Z.pos m * 2 ^ Z.of_nat n; shr_r := false; shr_s := false |}
  = {| shr_m := Z.pos m; shr_r := false; shr_s := false |}.
Proof.
  induction n as [|n IH].
  - simpl. f_equal. lia.
  - rewrite Nat.iter_succ_r.
    replace (Z.pos m * 2 ^ Z.of_nat (S n)) with (Z.pos (xO (m * Z.to_pos (2 ^ Z.of_nat n)))).
    2:{ rewrite Pos2Z.inj_xO, Pos2Z.inj_mul, Z2Pos.id by lia.
        rewrite Nat2Z.inj_succ, Z.pow_succ_r by lia. lia. }
    cbn [shr_1 orb]. rewrite Pos2Z.inj_mul, Z2Pos.id by lia. apply IH.
Qed.

Lemma shr_exact (k : Z) m e :
  0 ≤ k →
  shr {| shr_m := Z.pos m * 2 ^ k; shr_r := false; shr_s := false |} e k
  = ({| shr_m := Z.pos m; shr_r := false; shr_s := false |}, e + k).
Proof.
  intros Hk. unfold shr. destruct k as [|k|k]; [| |lia].
  - f_equal; [f_equal|]; lia.
  - rewrite iter_pos_nat. f_equal.
    rewrite <- (positive_nat_Z k). apply shr_zero_bits.
Qed.

Lemma Zdigits2_log2 z : 0 < z → Zdigits2 z = Z.log2 z + 1.
Proof. destruct z as [|p|p]; try lia. intros _. apply digits2_log2. Qed.

Lemma Zdigits2_shift z k : 0 < z → 0 ≤ k → Zdigits2 (z * 2 ^ k) = Zdigits2 z + k.
Proof.
  intros Hz Hk. rewrite !Zdigits2_log2 by (try apply Z.mul_pos_pos; lia).
  rewrite Z.log2_mul_pow2 by lia. lia.
Qed.

(** Rounding a mantissa whose low bits are zero drops them. *)
Lemma binary_round_aux_exact s M k e :
  0 ≤ k →
  fexp prec emax (Zdigits2 (Z.pos M) + k + e) = e + k →
  e + k ≤ emax - prec →
  binary_round_aux prec emax s (Z.pos M * 2 ^ k) e loc_Exact
  = S754_finite s M (e + k).
Proof.
  intros Hk Hf He. unfold binary_round_aux, shr_fexp.
  rewrite Zdigits2_shift by lia. rewrite Hf.
  replace (e + k - e) with k by lia. cbn [shr_record_of_loc].
  rewrite shr_exact by done. cbn [shr_m loc_of_shr_record round_nearest_even].
  replace (Zdigits2 (Z.pos M) + (e + k)) with (Zdigits2 (Z.pos M) + k + e) by lia.
  rewrite Hf, Z.sub_diag. cbn [shr_record_of_loc shr shr_m].
  apply Z.leb_le in He. by rewrite He.
Qed.

Lemma log2_53 n : 0 < n < 2 ^ 53 → 0 ≤ Z.log2 n < 53.
Proof.
  intros Hn. split; [apply Z.log2_nonneg|]. apply Z.log2_lt_pow2; lia.
Qed.

Lemma normalize_integer n j :
  0 < n < 2 ^ 53 → 0 ≤ j →
  binary_normalize prec emax (n * 2 ^ j) (- j) false = normal n.
Proof.
  intros Hn Hj. pose proof (log2_53 n Hn) as Hd.
  assert (0 < n * 2 ^ j) as Hpos by (apply Z.mul_pos_pos; lia).
  unfold binary_normalize. destruct (n * 2 ^ j) as [|p|p] eqn:Ep; try lia.
  unfold binary_round.
  assert (Z.pos (digits2_pos p) = Z.log2 n + 1 + j) as Hdig.
  { change (Z.pos (digits2_pos p)) with (Zdigits2 (Z.pos p)).
    rewrite <- Ep, Zdigits2_shift, Zdigits2_log2; lia. }
  rewrite Hdig.
  assert (fexp prec emax (Z.log2 n + 1 + j + - j) = Z.log2 n + 1 - 53) as Hf.
  { unfold fexp, emin, prec, emax. lia. }
  rewrite Hf. unfold shl_align.
  destruct (Z.log2 n + 1 - 53 - - j) as [|q|q] eqn:Eq.
  - (* already aligned *)
    replace (Z.pos p) with (Z.pos p * 2 ^ 0) by lia.
    rewrite binary_round_aux_exact; try lia.
    + unfold normal. f_equal; try lia.
      apply Pos2Z.inj. rewrite Z2Pos.id by (apply Z.mul_pos_pos; lia).
      rewrite <- Ep. replace (53 - (Z.log2 n + 1)) with j by lia. done.
    + change (Zdigits2 (Z.pos p)) with (Z.pos (digits2_pos p)). rewrite Hdig.
      unfold fexp, emin, prec, emax. lia.
    + unfold prec, emax. lia.
  - (* low bits to drop *)
    assert (Z.pos p = Z.pos (Z.to_pos (n * 2 ^ (53 - (Z.log2 n + 1)))) * 2 ^ Z.pos q) as ->.
    { rewrite Z2Pos.id by (apply Z.mul_pos_pos; lia).
      rewrite <- Ep, <- Z.mul_assoc, <- Z.pow_add_r by lia. do 2 f_equal. lia. }
    rewrite binary_round_aux_exact; try lia.
    + unfold normal. f_equal. lia.
    + rewrite Zdigits2_log2, Z2Pos.id, Z.log2_mul_pow2 by (try apply Z.mul_pos_pos; lia).
      unfold fexp, emin, prec, emax. lia.
    + unfold prec, emax. lia.
  - (* bits to add *)
    replace (Z.pos (Pos.iter xO p q)) with (Z.pos (Pos.iter xO p q) * 2 ^ 0) by lia.
    rewrite binary_round_aux_exact; try lia.
    + unfold normal. f_equal; try lia.
      apply Pos2Z.inj. rewrite iter_xO, Z2Pos.id by (apply Z.mul_pos_pos; lia).
      rewrite <- Ep, <- Z.mul_assoc, <- Z.pow_add_r by lia. do 2 f_equal. lia.
    + pose proof (digits2_log2 p) as Hlog. rewrite Hdig in Hlog.
      rewrite Zdigits2_log2, iter_xO, Z.log2_mul_pow2 by lia.
      unfold fexp, emin, prec, emax. lia.
    + unfold prec, emax. lia.
Qed.

Lemma of_Z_pos n : 0 < n < 2 ^ 53 → of_Z n = normal n.
Proof.
  intros Hn. unfold of_Z. rewrite <- (normalize_integer n 0) by lia.
  f_equal. lia.
Qed.

Lemma shl_align_value m e e' :
  e' ≤ e → Z.pos (fst (shl_align m e e')) = Z.pos m * 2 ^ (e - e').
Proof.
  intros He. unfold shl_align. destruct (e' - e) as [|d|d] eqn:Ed; try lia.
  - replace (e - e') with 0 by lia. simpl. lia.
  - cbn [fst]. rewrite iter_xO. do 2 f_equal. lia.
Qed.

Lemma SFadd_normal a b :
  0 < a → 0 < b → a + b < 2 ^ 53 →
  SFadd prec emax (normal a) (normal b) = normal (a + b).
Proof.
  intros Ha Hb Hab.
  pose proof (log2_53 a ltac:(lia)) as Hda. pose proof (log2_53 b ltac:(lia)) as Hdb.
  unfold normal at 1 2. cbn [SFadd cond_Zopp].
  set (ea := Z.log2 a + 1 - 53). set (eb := Z.log2 b + 1 - 53).
  rewrite !shl_align_value by lia.
  rewrite !Z2Pos.id by (apply Z.mul_pos_pos; lia).
  rewrite <- (normalize_integer (a + b) (- Z.min ea eb)) by lia.
  f_equal; [|lia].
  rewrite <- !Z.mul_assoc, <- !Z.pow_add_r by lia.
  rewrite Z.mul_add_distr_r. f_equal; do 2 f_equal; lia.
Qed.

Lemma SFadd_of_Z a b :
  0 ≤ a → 0 ≤ b → a + b < 2 ^ 53 →
  SFadd prec emax (of_Z a) (of_Z b) = of_Z (a + b).
Proof.
  intros Ha Hb Hab.
  destruct (decide (b = 0)) as [->|].
  { rewrite Z.add_0_r. destruct (decide (a = 0)) as [->|]; [done|].
    by rewrite (of_Z_pos a) by lia. }
  destruct (decide (a = 0)) as [->|].
  { change (0 + b) with b. by rewrite (of_Z_pos b) by lia. }
  rewrite !of_Z_pos by lia. apply SFadd_normal; lia.
Qed.

(** *** Rounding

    Every operation ends in [binary_round_aux], which shifts the exact
    significand down to 53 bits and rounds on the bits shifted out. *)

Lemma nearest_unique a b M : 0 < b → Z.abs (2 * a - 2 * M * b) < b → nearest a b = M.
Proof.
  intros Hb Hn. unfold nearest.
  pose proof (Z.div_mod a b ltac:(lia)) as Hdm.
  pose proof (Z.mod_pos_bound a b Hb) as Hr.
  set (h := a / b) in *. set (r := a mod b) in *. clearbody h r.
  assert (∃ d, h = M + d) as [d ->] by (exists (h - M); lia).
  assert (a - M * b = d * b + r) as Hd by lia.
  assert (d = 0 ∨ d = -1 ∨ d ≤ -2 ∨ 1 ≤ d) as Hcases by lia.
  destruct (b <? 2 * r) eqn:E1; cbn [orb].
  - apply Z.ltb_lt in E1. destruct Hcases as [->|[->|[?|?]]]; [lia|lia|nia|nia].
  - apply Z.ltb_ge in E1. destruct (b =? 2 * r) eqn:E2; cbn [andb].
    + apply Z.eqb_eq in E2. destruct Hcases as [->|[->|[?|?]]]; [lia|lia|nia|nia].
    + apply Z.eqb_neq in E2. destruct Hcases as [->|[->|[?|?]]]; [lia|lia|nia|nia].
Qed.

Lemma nearest_bound a b : 0 < b → Z.abs (2 * a - 2 * nearest a b * b) ≤ b.
Proof.
  intros Hb. unfold nearest.
  pose proof (Z.div_mod a b ltac:(lia)) as Hdm.
  pose proof (Z.mod_pos_bound a b Hb) as Hr.
  set (h := a / b) in *. set (r := a mod b) in *. clearbody h r.
  destruct (b <? 2 * r) eqn:E1; cbn [orb].
  - apply Z.ltb_lt in E1. nia.
  - apply Z.ltb_ge in E1. destruct (b =? 2 * r) eqn:E2; cbn [andb].
    + apply Z.eqb_eq in E2. destruct (Z.odd h); nia.
    + nia.
Qed.

Lemma nearest_exact a b : 0 < b → nearest (a * b) b = a.
Proof. intros Hb. apply nearest_unique; [done|]. lia. Qed.

Lemma shr_1_nonneg m r s :
  0 ≤ m →
  shr_1 {| shr_m := m; shr_r := r; shr_s := s |}
  = {| shr_m := m / 2; shr_r := Z.odd m; shr_s := r || s |}.
Proof.
  intros Hm. destruct m as [|p|p]; [done| |lia].
  destruct p as [p|p|]; cbn [shr_1]; f_equal.
  - apply (Z.div_unique _ 2 _ 1); lia.
  - apply (Z.div_unique _ 2 _ 0); lia.
Qed.

Lemma shr_iter n m :
  0 ≤ m →
  Nat.iter (S n) shr_1 {| shr_m := m; shr_r := false; shr_s := false |}
  = {| shr_m := m / 2 ^ Z.of_nat (S n);
       shr_r := Z.odd (m / 2 ^ Z.of_nat n);
       shr_s := negb (m mod 2 ^ Z.of_nat n =? 0) |}.
Proof.
  intros Hm. induction n as [|n IH].
  - cbn [Nat.iter]. rewrite shr_1_nonneg by done.
    change (2 ^ Z.of_nat 1) with 2. change (2 ^ Z.of_nat 0) with 1.
    by rewrite Z.div_1_r, Z.mod_1_r.
  - rewrite Nat.iter_succ, IH.
    assert (0 < 2 ^ Z.of_nat n) as Hp by (apply Z.pow_pos_nonneg; lia).
    assert (2 ^ Z.of_nat (S n) = 2 ^ Z.of_nat n * 2) as E1
      by (rewrite Nat2Z.inj_succ, Z.pow_succ_r; lia).
    assert (2 ^ Z.of_nat (S (S n)) = 2 ^ Z.of_nat (S n) * 2) as E2
      by (rewrite (Nat2Z.inj_succ (S n)), Z.pow_succ_r; lia).
    rewrite shr_1_nonneg by (apply Z.div_pos; lia).
    f_equal.
    + rewrite E2. rewrite Z.div_div by lia. done.
    + rewrite E1. rewrite Z.rem_mul_r by lia. rewrite Zmod_odd.
      set (low := m mod 2 ^ Z.of_nat n).
      pose proof (Z.mod_pos_bound m (2 ^ Z.of_nat n) Hp) as Hl. fold low in Hl.
      clearbody low.
      destruct (Z.odd _); cbn [orb].
      * symmetry. apply negb_true_iff, Z.eqb_neq. nia.
      * by rewrite Z.mul_0_r, Z.add_0_r.
Qed.

(** Rounding the shifted significand on the two bits kept is rounding to
    the nearest, ties to even. *)
Lemma round_shifted n m :
  0 ≤ m →
  let rec := Nat.iter (S n) shr_1 {| shr_m := m; shr_r := false; shr_s := false |} in
  round_nearest_even (shr_m rec) (loc_of_shr_record rec)
  = nearest m (2 ^ Z.of_nat (S n)).
Proof.
  intros Hm rec. subst rec. rewrite shr_iter by done.
  assert (0 < 2 ^ Z.of_nat n) as Hp by (apply Z.pow_pos_nonneg; lia).
  assert (2 ^ Z.of_nat (S n) = 2 ^ Z.of_nat n * 2) as E1
    by (rewrite Nat2Z.inj_succ, Z.pow_succ_r; lia).
  unfold nearest. cbn [shr_m].
  assert (m mod 2 ^ Z.of_nat (S n)
          = m mod 2 ^ Z.of_nat n + 2 ^ Z.of_nat n * ((m / 2 ^ Z.of_nat n) mod 2)) as Er
    by (rewrite E1; apply Z.rem_mul_r; lia).
  rewrite Er. clear Er. rewrite Zmod_odd.
  set (low := m mod 2 ^ Z.of_nat n).
  pose proof (Z.mod_pos_bound m (2 ^ Z.of_nat n) Hp) as Hl. fold low in Hl.
  set (h := m / 2 ^ Z.of_nat (S n)).
  rewrite E1. set (P := 2 ^ Z.of_nat n) in *. clearbody low h P.
  destruct (Z.odd _).
  - destruct (low =? 0) eqn:El; cbn [negb loc_of_shr_record round_nearest_even].
    + apply Z.eqb_eq in El. subst low.
      assert ((P * 2 <? 2 * (0 + P * 1)) = false) as -> by (apply Z.ltb_ge; lia).
      assert ((P * 2 =? 2 * (0 + P * 1)) = true) as -> by (apply Z.eqb_eq; lia).
      cbn [orb andb]. rewrite <- Z.negb_even. by destruct (Z.even h).
    + apply Z.eqb_neq in El.
      assert ((P * 2 <? 2 * (low + P * 1)) = true) as -> by (apply Z.ltb_lt; lia).
      done.
  - assert ((P * 2 <? 2 * (low + P * 0)) = false) as -> by (apply Z.ltb_ge; lia).
    assert ((P * 2 =? 2 * (low + P * 0)) = false) as -> by (apply Z.eqb_neq; lia).
    cbn [orb andb]. by destruct (negb (low =? 0)).
Qed.
Lemma nearest_range m n :
  0 ≤ n → 2 ^ (52 + n) ≤ m < 2 ^ (53 + n) → 2 ^ 52 ≤ nearest m (2 ^ n) ≤ 2 ^ 53.
Proof.
  intros Hn Hm.
  assert (0 < 2 ^ n) as Hp by (apply Z.pow_pos_nonneg; lia).
  pose proof (nearest_bound m (2 ^ n) Hp) as Hb.
  rewrite !Z.pow_add_r in Hm by lia.
  set (P := 2 ^ n) in *. set (M := nearest m P) in *. clearbody P M.
  change (2 ^ 52) with 4503599627370496 in *.
  change (2 ^ 53) with 9007199254740992 in *.
  split; nia.
Qed.

Lemma digits_range m k : 0 ≤ k → 2 ^ k ≤ m < 2 ^ (k + 1) → Zdigits2 m = k + 1.
Proof.
  intros Hk Hm. assert (0 < 2 ^ k) by (apply Z.pow_pos_nonneg; lia).
  rewrite Zdigits2_log2 by lia. f_equal.
  apply Z.log2_unique; [lia|]. by rewrite <- Z.add_1_r.
Qed.

(** Rounding a significand of [53 + n] bits: the core of every binary64
    operation, for results in the normal range. *)
Lemma binary_round_aux_nearest s m e n :
  0 ≤ n → 2 ^ (52 + n) ≤ m < 2 ^ (53 + n) →
  -1074 ≤ e + n → e + n < 971 →
  binary_round_aux prec emax s m e loc_Exact = pack s (nearest m (2 ^ n)) (e + n).
Proof.
  intros Hn Hm Hlo Hhi.
  pose proof (nearest_range m n Hn Hm) as HM.
  assert (0 < 2 ^ (52 + n)) as Hp0 by (apply Z.pow_pos_nonneg; lia).
  unfold binary_round_aux, shr_fexp.
  rewrite (digits_range m (52 + n)) by (try lia; by rewrite <- Z.add_assoc, (Z.add_comm n 1), Z.add_assoc).
  assert (fexp prec emax (52 + n + 1 + e) - e = n) as ->
    by (unfold fexp, emin, prec, emax; lia).
  cbn [shr_record_of_loc].
  assert (∃ rec, shr {| shr_m := m; shr_r := false; shr_s := false |} e n
                 = (rec, e + n)
                 ∧ round_nearest_even (shr_m rec) (loc_of_shr_record rec)
                   = nearest m (2 ^ n))
    as (rec & Erec & Eround).
  { destruct n as [|p|p]; [| |lia].
    - eexists. split; [cbn [shr]; f_equal; lia|].
      cbn [shr_m loc_of_shr_record round_nearest_even].
      change (2 ^ 0) with 1. rewrite <- (Z.mul_1_r m) at 2.
      by rewrite nearest_exact.
    - eexists. split; [cbn [shr]; reflexivity|].
      rewrite iter_pos_nat.
      destruct (Pos.to_nat p) as [|k] eqn:Ek; [lia|].
      rewrite round_shifted by lia. do 2 f_equal. lia. }
  rewrite Erec, Eround. clear Erec Eround rec.
  set (M := nearest m (2 ^ n)) in *. clearbody M.
  unfold pack. destruct (M =? 2 ^ 53) eqn:E53.
  - apply Z.eqb_eq in E53. subst M.
    rewrite (digits_range (2 ^ 53) 53) by lia.
    assert (fexp prec emax (53 + 1 + (e + n)) - (e + n) = 1) as ->
      by (unfold fexp, emin, prec, emax; lia).
    change (2 ^ 53) with 9007199254740992.
    cbn [shr SpecFloat.iter_pos shr_1 shr_record_of_loc shr_m].
    assert ((e + n + 1 <=? emax - prec) = true) as ->
      by (apply Z.leb_le; unfold emax, prec; lia).
    reflexivity.
  - apply Z.eqb_neq in E53.
    rewrite (digits_range M 52) by lia.
    assert (fexp prec emax (52 + 1 + (e + n)) - (e + n) = 0) as ->
      by (unfold fexp, emin, prec, emax; lia).
    cbn [shr shr_record_of_loc shr_m].
    destruct M as [|M|M]; [lia| |lia].
    unfold prec, emax. assert ((e + n <=? 1024 - 53) = true) as -> by (apply Z.leb_le; lia).
    done.
Qed.

Lemma SFmul_nearest sx mx ex sy my ey n :
  0 ≤ n → 2 ^ (52 + n) ≤ Z.pos mx * Z.pos my < 2 ^ (53 + n) →
  -1074 ≤ ex + ey + n → ex + ey + n < 971 →
  SFmul prec emax (S754_finite sx mx ex) (S754_finite sy my ey)
  = pack (xorb sx sy) (nearest (Z.pos mx * Z.pos my) (2 ^ n)) (ex + ey + n).
Proof.
  intros Hn Hm Hlo Hhi. cbn [SFmul]. rewrite Pos2Z.inj_mul.
  by apply binary_round_aux_nearest.
Qed.

Lemma SFadd_nearest mx ex my ey n :
  let ez := Z.min ex ey in
  let sum := Z.pos mx * 2 ^ (ex - ez) + Z.pos my * 2 ^ (ey - ez) in
  0 ≤ n → 2 ^ (52 + n) ≤ sum < 2 ^ (53 + n) →
  -1074 ≤ ez + n → ez + n < 971 →
  SFadd prec emax (S754_finite false mx ex) (S754_finite false my ey)
  = pack false (nearest sum (2 ^ n)) (ez + n).
Proof.
  intros ez sum Hn Hm Hlo Hhi. cbn [SFadd cond_Zopp]. fold ez.
  rewrite !shl_align_value by lia. fold sum.
  assert (0 < 2 ^ (52 + n)) as Hp0 by (apply Z.pow_pos_nonneg; lia).
  unfold binary_normalize. destruct sum as [|p|p] eqn:Es; [lia| |lia].
  unfold binary_round.
  change (Z.pos (digits2_pos p)) with (Zdigits2 (Z.pos p)).
  rewrite (digits_range (Z.pos p) (52 + n)) by (try lia; by rewrite <- Z.add_assoc, (Z.add_comm n 1), Z.add_assoc).
  assert (fexp prec emax (52 + n + 1 + ez) = ez + n) as ->
    by (unfold fexp, emin, prec, emax; lia).
  unfold shl_align. destruct (ez + n - ez) as [|q|q] eqn:Eq; [| |lia].
  - by apply binary_round_aux_nearest.
  - by apply binary_round_aux_nearest.
Qed.

Lemma nearest_range_div a b :
  0 < b → 2 ^ 52 * b ≤ a < 2 ^ 53 * b → 2 ^ 52 ≤ nearest a b ≤ 2 ^ 53.
Proof.
  intros Hb Ha. pose proof (nearest_bound a b Hb) as Hn.
  set (M := nearest a b) in *. clearbody M.
  change (2 ^ 52) with 4503599627370496 in *.
  change (2 ^ 53) with 9007199254740992 in *.
  split; nia.
Qed.

(** The end of [binary_round_aux]: a rounded significand that reached
    [2^53] is renormalised. *)
Lemma round_tail s M E :
  2 ^ 52 ≤ M ≤ 2 ^ 53 → -1074 ≤ E → E < 971 →
  (let '(mrs, e) := shr_fexp prec emax M E loc_Exact in
   match shr_m mrs with
   | 0 => S754_zero s
   | Z.pos m => if e <=? emax - prec then S754_finite s m e else S754_infinity s
   | Z.neg _ => S754_nan
   end) = pack s M E.
Proof.
  intros HM Hlo Hhi. unfold shr_fexp, pack. destruct (M =? 2 ^ 53) eqn:E53.
  - apply Z.eqb_eq in E53. subst M.
    rewrite (digits_range (2 ^ 53) 53) by lia.
    assert (fexp prec emax (53 + 1 + E) - E = 1) as ->
      by (unfold fexp, emin, prec, emax; lia).
    change (2 ^ 53) with 9007199254740992.
    cbn [shr SpecFloat.iter_pos shr_1 shr_record_of_loc shr_m].
    assert ((E + 1 <=? emax - prec) = true) as ->
      by (apply Z.leb_le; unfold emax, prec; lia).
    reflexivity.
  - apply Z.eqb_neq in E53.
    rewrite (digits_range M 52) by lia.
    assert (fexp prec emax (52 + 1 + E) - E = 0) as ->
      by (unfold fexp, emin, prec, emax; lia).
    cbn [shr shr_record_of_loc shr_m].
    destruct M as [|M|M]; [lia| |lia].
    assert ((E <=? emax - prec) = true) as ->
      by (apply Z.leb_le; unfold emax, prec; lia).
    done.
Qed.

Lemma new_location_compare b r :
  0 < b → 0 ≤ r < b →
  new_location b r = if r =? 0 then loc_Exact else loc_Inexact (2 * r ?= b).
Proof.
  intros Hb Hr. unfold new_location. destruct (Z.even b) eqn:Eb.
  - done.
  - unfold new_location_odd. destruct (r =? 0); [done|]. f_equal.
    assert (Z.odd b = true) as Ho by (by rewrite <- Z.negb_even, Eb).
    apply Z.odd_spec in Ho as [c Hc].
    destruct (Z.compare_spec (2 * r + 1) b), (Z.compare_spec (2 * r) b);
      done || lia.
Qed.

Lemma shr_m_of_loc q l : shr_m (shr_record_of_loc q l) = q.
Proof. by destruct l as [|[]]. Qed.

(** A quotient with the location of its remainder rounds to the nearest
    integer of the fraction. *)
Lemma round_quotient m b :
  0 ≤ m → 0 < b →
  let q := m / b in
  round_nearest_even q
    (loc_of_shr_record (shr_record_of_loc q (new_location b (m mod b))))
  = nearest m b.
Proof.
  intros Hm Hb q. pose proof (Z.mod_pos_bound m b Hb) as Hr.
  rewrite new_location_compare by done. unfold nearest. fold q.
  set (r := m mod b) in *. clearbody q r.
  destruct (r =? 0) eqn:E0.
  - apply Z.eqb_eq in E0. subst r.
    cbn [shr_record_of_loc loc_of_shr_record round_nearest_even].
    assert ((b <? 2 * 0) = false) as -> by (apply Z.ltb_ge; lia).
    assert ((b =? 2 * 0) = false) as -> by (apply Z.eqb_neq; lia). done.
  - destruct (Z.compare_spec (2 * r) b) as [E|E|E];
      cbn [shr_record_of_loc loc_of_shr_record round_nearest_even].
    + assert ((b <? 2 * r) = false) as -> by (apply Z.ltb_ge; lia).
      assert ((b =? 2 * r) = true) as -> by (apply Z.eqb_eq; lia).
      cbn [orb andb]. rewrite <- Z.negb_even. by destruct (Z.even q).
    + assert ((b <? 2 * r) = false) as -> by (apply Z.ltb_ge; lia).
      assert ((b =? 2 * r) = false) as -> by (apply Z.eqb_neq; lia). done.
    + assert ((b <? 2 * r) = true) as -> by (apply Z.ltb_lt; lia). done.
Qed.

(** The same after one more bit is shifted out. *)
Lemma round_quotient_half a b :
  0 ≤ a → 0 < b →
  let q := (2 * a) / b in
  let rec := shr_1 (shr_record_of_loc q (new_location b ((2 * a) mod b))) in
  round_nearest_even (shr_m rec) (loc_of_shr_record rec) = nearest a b.
Proof.
  intros Ha Hb q rec.
  pose proof (Z.mod_pos_bound (2 * a) b Hb) as Hr.
  pose proof (Z.div_mod (2 * a) b ltac:(lia)) as Hdm. fold q in Hdm.
  assert (0 ≤ q) as Hq by (apply Z.div_pos; lia).
  assert (rec = {| shr_m := q / 2; shr_r := Z.odd q;
                   shr_s := negb ((2 * a) mod b =? 0) |}) as ->.
  { subst rec. rewrite new_location_compare by done.
    destruct (_ =? 0); [|destruct (_ ?= _)]; cbn [shr_record_of_loc];
      by rewrite shr_1_nonneg. }
  set (r := (2 * a) mod b) in *. clearbody r.
  pose proof (Z.div_mod q 2 ltac:(lia)) as Hq2. rewrite Zmod_odd in Hq2.
  set (h := q / 2) in *. clearbody h.
  cbn [shr_m]. unfold nearest.
  destruct (Z.odd q) eqn:Eo.
  - (* q = 2 h + 1 *)
    assert (a = b * h + (b + r) / 2 ∧ 2 * ((b + r) / 2) = b + r) as [Ea Ehalf].
    { assert (∃ c, b + r = 2 * c) as [c Hc] by (exists (a - b * h); lia).
      rewrite Hc, (Z.mul_comm 2 c), Z.div_mul by lia. lia. }
    set (rest := (b + r) / 2) in *.
    assert (a / b = h) as -> by (symmetry; apply (Z.div_unique _ _ _ rest); lia).
    assert (a mod b = rest) as -> by (symmetry; apply (Z.mod_unique _ _ h); lia).
    destruct (r =? 0) eqn:E0; cbn [negb loc_of_shr_record round_nearest_even].
    + apply Z.eqb_eq in E0.
      assert ((b <? 2 * rest) = false) as -> by (apply Z.ltb_ge; lia).
      assert ((b =? 2 * rest) = true) as -> by (apply Z.eqb_eq; lia).
      cbn [orb andb]. rewrite <- Z.negb_even. by destruct (Z.even h).
    + apply Z.eqb_neq in E0.
      assert ((b <? 2 * rest) = true) as -> by (apply Z.ltb_lt; lia). done.
  - (* q = 2 h *)
    assert (a = b * h + r / 2 ∧ 2 * (r / 2) = r) as [Ea Ehalf].
    { assert (∃ c, r = 2 * c) as [c Hc] by (exists (a - b * h); lia).
      rewrite Hc, (Z.mul_comm 2 c), Z.div_mul by lia. lia. }
    set (rest := r / 2) in *.
    assert (a / b = h) as -> by (symmetry; apply (Z.div_unique _ _ _ rest); lia).
    assert (a mod b = rest) as -> by (symmetry; apply (Z.mod_unique _ _ h); lia).
    assert ((b <? 2 * rest) = false) as -> by (apply Z.ltb_ge; lia).
    assert ((b =? 2 * rest) = false) as -> by (apply Z.eqb_neq; lia).
    cbn [orb andb]. by destruct (negb _).
Qed.

Lemma pow2_lt_inv x y : 2 ^ x < 2 ^ y → 0 ≤ y → x < y.
Proof.
  intros H Hy. destruct (Z_lt_le_dec x y) as [|Hle]; [done|].
  pose proof (Z.pow_le_mono_r 2 y x ltac:(lia) Hle). lia.
Qed.

(** The quotient of two positive integers as a double: the nearest
    significand at the exponent that makes it one of 53 bits. *)
Lemma SFdiv_nearest a b k :
  0 < a → 0 < b → 0 ≤ k ≤ 1000 →
  2 ^ 52 * b ≤ a * 2 ^ k < 2 ^ 53 * b →
  SFdiv prec emax (integer a) (integer b) = pack false (nearest (a * 2 ^ k) b) (- k).
Proof.
  intros Ha Hb Hk Hab.
  destruct a as [|pa|pa]; [lia| |lia]. destruct b as [|pb|pb]; [lia| |lia].
  cbn [integer SFdiv xorb]. unfold SFdiv_core_binary.
  set (a := Z.pos pa) in *. set (b := Z.pos pb) in *.
  assert (0 ≤ Z.log2 a ∧ 0 ≤ Z.log2 b) as [Hla Hlb] by (split; apply Z.log2_nonneg).
  pose proof (Z.log2_spec a Ha) as Hsa. pose proof (Z.log2_spec b Hb) as Hsb.
  rewrite <- !Z.add_1_r in Hsa, Hsb.
  rewrite !Zdigits2_log2 by done. rewrite !Z.add_0_r, Z.sub_0_r.
  set (sh := 53 + Z.log2 b - Z.log2 a).
  assert (0 < 2 ^ k) as Hpk by (apply Z.pow_pos_nonneg; lia).
  (* the shift is k or k + 1 *)
  assert (k ≤ sh ≤ k + 1) as Hsh.
  { assert (0 < 2 ^ Z.log2 a ∧ 0 < 2 ^ Z.log2 b) as [Hpa Hpb]
      by (split; apply Z.pow_pos_nonneg; lia).
    subst sh. split.
    - assert (2 ^ (Z.log2 a + k) < 2 ^ (53 + (Z.log2 b + 1))) as H;
        [|apply pow2_lt_inv in H; lia].
      rewrite (Z.pow_add_r 2 (Z.log2 a)), (Z.pow_add_r 2 53) by lia.
      apply Z.le_lt_trans with (a * 2 ^ k);
        [apply Z.mul_le_mono_nonneg_r; lia|].
      apply Z.lt_trans with (2 ^ 53 * b); [lia|].
      apply Z.mul_lt_mono_pos_l; lia.
    - assert (2 ^ (52 + Z.log2 b) < 2 ^ (Z.log2 a + 1 + k)) as H;
        [|apply pow2_lt_inv in H; lia].
      rewrite (Z.pow_add_r 2 52), (Z.pow_add_r 2 (Z.log2 a + 1)) by lia.
      apply Z.le_lt_trans with (2 ^ 52 * b);
        [apply Z.mul_le_mono_nonneg_l; lia|].
      apply Z.le_lt_trans with (a * 2 ^ k); [lia|].
      apply Z.mul_lt_mono_pos_r; lia. }
  assert (Z.min (fexp prec emax (Z.log2 a + 1 - (Z.log2 b + 1))) 0 = - sh) as ->
    by (unfold fexp, emin, prec, emax; lia).
  replace (0 - - sh) with sh by lia.
  assert (match sh with
          | 0 => a
          | Z.pos _ => Z.shiftl a sh
          | Z.neg _ => 0
          end = a * 2 ^ sh) as ->.
  { destruct sh as [|p|p] eqn:E; [lia| |lia]. rewrite Z.shiftl_mul_pow2; lia. }
  assert (0 < 2 ^ sh) as Hps by (apply Z.pow_pos_nonneg; lia).
  unfold Z.div_eucl at 1. fold (Z.div_eucl (a * 2 ^ sh) b).
  pose proof (Z.div_eucl_eq (a * 2 ^ sh) b ltac:(lia)) as Heucl.
  assert (Z.div_eucl (a * 2 ^ sh) b = ((a * 2 ^ sh) / b, (a * 2 ^ sh) mod b)) as ->.
  { unfold Z.div, Z.modulo. by destruct (Z.div_eucl _ _). }
  clear Heucl.
  pose proof (nearest_range_div (a * 2 ^ k) b) as HM.
  unfold binary_round_aux at 1.
  destruct (decide (sh = k)) as [->|Hne].
  - (* the quotient has 53 bits *)
    assert (2 ^ 52 ≤ a * 2 ^ k / b < 2 ^ 53) as Hq.
    { split; [apply Z.div_le_lower_bound; lia | apply Z.div_lt_upper_bound; lia]. }
    unfold shr_fexp at 1. rewrite (digits_range _ 52) by lia.
    assert (fexp prec emax (52 + 1 + - k) - - k = 0) as ->
      by (unfold fexp, emin, prec, emax; lia).
    cbn [shr]. rewrite shr_m_of_loc, round_quotient by lia.
    apply round_tail; [apply HM; lia | lia | lia].
  - assert (sh = k + 1) as -> by lia.
    assert (a * 2 ^ (k + 1) = 2 * (a * 2 ^ k)) as E2
      by (rewrite Z.pow_add_r by lia; lia).
    rewrite E2.
    assert (2 ^ 53 ≤ 2 * (a * 2 ^ k) / b < 2 ^ 54) as Hq.
    { split; [apply Z.div_le_lower_bound; lia | apply Z.div_lt_upper_bound; lia]. }
    unfold shr_fexp at 1. rewrite (digits_range _ 53) by lia.
    assert (fexp prec emax (53 + 1 + - (k + 1)) - - (k + 1) = 1) as ->
      by (unfold fexp, emin, prec, emax; lia).
    cbn [shr SpecFloat.iter_pos]. rewrite round_quotient_half by lia.
    replace (- (k + 1) + 1) with (- k) by lia.
    apply round_tail; [apply HM; lia | lia | lia].
Qed.

(** *** Doubles of integers and of decimals *)

Lemma nearest_scale c a b : 0 < c → 0 < b → nearest (c * a) (c * b) = nearest a b.
Proof.
  intros Hc Hb. unfold nearest.
  rewrite Z.div_mul_cancel_l, Z.mul_mod_distr_l by lia.
  set (h := a / b). set (r := a mod b). clearbody h r.
  assert ((c * b <? 2 * (c * r)) = (b <? 2 * r)) as ->.
  { destruct (Z.ltb_spec b (2 * r)); [apply Z.ltb_lt | apply Z.ltb_ge]; nia. }
  assert ((c * b =? 2 * (c * r)) = (b =? 2 * r)) as ->.
  { destruct (Z.eqb_spec b (2 * r)); [apply Z.eqb_eq | apply Z.eqb_neq]; nia. }
  done.
Qed.

Lemma pack_normal n :
  0 < n < 2 ^ 53 → pack false (n * 2 ^ (52 - Z.log2 n)) (Z.log2 n - 52) = normal n.
Proof.
  intros Hn. pose proof (log2_53 n Hn) as Hl.
  pose proof (Z.log2_spec n ltac:(lia)) as Hs.
  assert (0 < 2 ^ (52 - Z.log2 n)) as Hp by (apply Z.pow_pos_nonneg; lia).
  assert (n * 2 ^ (52 - Z.log2 n) < 2 ^ 53) as Hlt.
  { replace (2 ^ 53) with (2 ^ Z.succ (Z.log2 n) * 2 ^ (52 - Z.log2 n)).
    - apply Z.mul_lt_mono_pos_r; lia.
    - rewrite <- Z.pow_add_r by lia. f_equal. lia. }
  unfold pack, normal. rewrite (proj2 (Z.eqb_neq _ _)) by lia.
  f_equal; [do 3 f_equal|]; lia.
Qed.

(** The scale at which a positive integer has 53 bits. *)
Lemma scale_normal n :
  0 < n < 2 ^ 53 →
  let k := 52 - Z.log2 n in 0 ≤ k ≤ 52 ∧ 2 ^ 52 ≤ n * 2 ^ k < 2 ^ 53.
Proof.
  intros Hn k. pose proof (log2_53 n Hn) as Hl.
  pose proof (Z.log2_spec n ltac:(lia)) as Hs.
  assert (0 < 2 ^ k) as Hp by (apply Z.pow_pos_nonneg; lia).
  split; [lia|]. split.
  - replace (2 ^ 52) with (2 ^ Z.log2 n * 2 ^ k)
      by (rewrite <- Z.pow_add_r by lia; f_equal; lia).
    apply Z.mul_le_mono_nonneg_r; lia.
  - replace (2 ^ 53) with (2 ^ Z.succ (Z.log2 n) * 2 ^ k)
      by (rewrite <- Z.pow_add_r by lia; f_equal; lia).
    apply Z.mul_lt_mono_pos_r; lia.
Qed.

(** An exact quotient is the double of the quotient. *)
Lemma SFdiv_exact n b :
  0 < n < 2 ^ 53 → 0 < b →
  SFdiv prec emax (integer (n * b)) (integer b) = of_Z n.
Proof.
  intros Hn Hb. rewrite of_Z_pos by done.
  destruct (scale_normal n Hn) as [Hk Hr]. cbn zeta in Hk, Hr.
  rewrite (SFdiv_nearest (n * b) b (52 - Z.log2 n)); [| nia | done | lia | nia].
  replace (n * b * 2 ^ (52 - Z.log2 n)) with (n * 2 ^ (52 - Z.log2 n) * b) by lia.
  rewrite nearest_exact by done.
  replace (- (52 - Z.log2 n)) with (Z.log2 n - 52) by lia.
  by apply pack_normal.
Qed.

Lemma decimal_0_of_Z q : 0 ≤ q < 2 ^ 53 → decimal q 0 = of_Z q.
Proof.
  intros Hq. destruct (decide (q = 0)) as [->|Hne]; [done|].
  unfold decimal. change (10 ^ Z.of_nat 0) with 1.
  rewrite <- (Z.mul_1_r q) at 1. apply SFdiv_exact; lia.
Qed.

Lemma decimal_2_of_Z n : 0 ≤ n < 2 ^ 53 → decimal (100 * n) 2 = of_Z n.
Proof.
  intros Hn. destruct (decide (n = 0)) as [->|Hne]; [done|].
  unfold decimal. change (10 ^ Z.of_nat 2) with 100.
  rewrite (Z.mul_comm 100 n). apply SFdiv_exact; lia.
Qed.

(** An exact product is the double of the product. *)
Lemma SFmul_of_Z a b :
  0 ≤ a < 2 ^ 53 → 0 ≤ b < 2 ^ 53 → a * b < 2 ^ 53 →
  SFmul prec emax (of_Z a) (of_Z b) = of_Z (a * b).
Proof.
  intros Ha Hb Hab.
  destruct (decide (a = 0)) as [->|Ha0].
  { destruct (decide (b = 0)) as [->|Hb0]; [done|].
    rewrite (of_Z_pos b) by lia. done. }
  destruct (decide (b = 0)) as [->|Hb0].
  { rewrite Z.mul_0_r, (of_Z_pos a) by lia. done. }
  assert (0 < a < 2 ^ 53 ∧ 0 < b < 2 ^ 53) as [Ha' Hb'] by lia.
  assert (0 < a * b < 2 ^ 53) as Hab' by nia.
  rewrite (of_Z_pos a), (of_Z_pos b), (of_Z_pos (a * b)) by done.
  destruct (scale_normal a Ha') as [Hka Hra].
  destruct (scale_normal b Hb') as [Hkb Hrb].
  destruct (scale_normal (a * b) Hab') as [Hkc Hrc]. cbn zeta in *.
  set (ka := 52 - Z.log2 a) in *. set (kb := 52 - Z.log2 b) in *.
  set (kc := 52 - Z.log2 (a * b)) in *.
  assert (0 < 2 ^ ka ∧ 0 < 2 ^ kb ∧ 0 < 2 ^ kc) as (Hpa & Hpb & Hpc)
    by (repeat split; apply Z.pow_pos_nonneg; lia).
  rewrite <- !pack_normal by done. fold ka kb kc.
  unfold pack at 1 2. rewrite !(proj2 (Z.eqb_neq _ _)) by lia.
  replace (Z.log2 a - 52) with (- ka) by lia.
  replace (Z.log2 b - 52) with (- kb) by lia.
  replace (Z.log2 (a * b) - 52) with (- kc) by lia.
  set (n := ka + kb - kc).
  assert (a * 2 ^ ka * (b * 2 ^ kb) = a * b * 2 ^ kc * 2 ^ n ∧ 0 ≤ n) as [Eprod Hn].
  { destruct (Z_lt_le_dec n 0) as [Hneg|Hpos].
    - exfalso. assert (2 ^ kc = 2 ^ (ka + kb) * 2 ^ (- n)) as E
        by (rewrite <- Z.pow_add_r by lia; f_equal; lia).
      assert (2 ≤ 2 ^ (- n)) as H2
        by (change 2 with (2 ^ 1) at 1; apply Z.pow_le_mono_r; lia).
      rewrite Z.pow_add_r in E by lia.
      assert (2 ^ 104 ≤ a * 2 ^ ka * (b * 2 ^ kb)).
      { change (2 ^ 104) with (2 ^ 52 * 2 ^ 52). apply Z.mul_le_mono_nonneg; lia. }
      assert (a * b * 2 ^ kc < 2 ^ 53) by lia.
      assert (2 * (a * 2 ^ ka * (b * 2 ^ kb)) ≤ a * b * 2 ^ kc); [|lia].
      rewrite E. nia.
    - split; [|done].
      assert (2 ^ ka * 2 ^ kb = 2 ^ kc * 2 ^ n) as E
        by (rewrite <- !Z.pow_add_r by lia; f_equal; lia).
      transitivity (a * b * (2 ^ ka * 2 ^ kb)); [ring | rewrite E; ring]. }
  assert (0 < 2 ^ n) as Hpn by (apply Z.pow_pos_nonneg; lia).
  rewrite (SFmul_nearest _ _ _ _ _ _ n).
  - rewrite !Z2Pos.id by lia. rewrite Eprod, nearest_exact by done.
    cbn [xorb]. f_equal. lia.
  - done.
  - rewrite !Z2Pos.id by lia. rewrite Eprod, !Z.pow_add_r by lia. nia.
  - lia.
  - lia.
Qed.

(** *** [toFixed(2)] on doubles below [2^52] *)

Lemma hundredths_near M E c :
  0 < M → E < 0 → Z.abs (200 * M - 2 * c * 2 ^ (- E)) < 2 ^ (- E) →
  hundredths (Z.to_pos M) E = c.
Proof.
  intros HM HE Hc. unfold hundredths.
  rewrite (proj2 (Z.leb_gt _ _)) by lia. rewrite Z2Pos.id by done.
  replace (1 - E) with (- E + 1) by lia. rewrite Z.pow_add_r by lia.
  assert (0 < 2 ^ (- E)) as Hp by (apply Z.pow_pos_nonneg; lia).
  set (D := 2 ^ (- E)) in *. clearbody D. change (2 ^ 1) with 2.
  symmetry. apply (Z.div_unique _ _ _ (200 * M + D - D * 2 * c)); lia.
Qed.

Lemma fixed2_near M E c :
  0 < M → E < 0 → 0 < c → Z.abs (200 * M - 2 * c * 2 ^ (- E)) < 2 ^ (- E) →
  fixed2 (S754_finite false (Z.to_pos M) E) = decimal c 2.
Proof.
  intros HM HE Hc Hn. unfold fixed2.
  rewrite (proj2 (Z.leb_gt _ _)) by lia. cbn [andb].
  rewrite (hundredths_near M E c) by done.
  by destruct c.
Qed.

Lemma fixed2_pack M E c :
  2 ^ 52 ≤ M ≤ 2 ^ 53 → E < -1 → 0 < c →
  Z.abs (200 * M - 2 * c * 2 ^ (- E)) < 2 ^ (- E) →
  fixed2 (pack false M E) = decimal c 2.
Proof.
  intros HM HE Hc Hn. unfold pack. destruct (M =? 2 ^ 53) eqn:E53.
  - apply Z.eqb_eq in E53. subst M. apply fixed2_near; [done | lia | done |].
    replace (- E) with (- (E + 1) + 1) in Hn by lia.
    rewrite Z.pow_add_r in Hn by lia.
    set (D := 2 ^ (- (E + 1))) in *. clearbody D.
    change (2 ^ 53) with (2 * 2 ^ 52) in Hn. change (2 ^ 1) with 2 in Hn.
    set (T := 2 ^ 52) in *. clearbody T. lia.
  - apply fixed2_near; [lia | lia | done | done].
Qed.

Lemma fixed2_of_Z n : 0 ≤ n < 2 ^ 53 → fixed2 (of_Z n) = of_Z n.
Proof.
  intros Hn. destruct (decide (n = 0)) as [->|Hne]; [done|].
  rewrite <- (decimal_2_of_Z n) at 2 by done.
  rewrite of_Z_pos by lia. rewrite <- pack_normal by lia.
  destruct (scale_normal n ltac:(lia)) as [Hk Hr]. cbn zeta in Hk, Hr.
  set (k := 52 - Z.log2 n) in *. replace (Z.log2 n - 52) with (- k) by lia.
  destruct (decide (k = 0)) as [->|Hk0].
  - change (2 ^ 0) with 1 in *. rewrite Z.mul_1_r in *.
    unfold pack. rewrite (proj2 (Z.eqb_neq _ _)) by lia.
    unfold fixed2. change (- 0) with 0. change (0 <=? 0) with true.
    rewrite Z2Pos.id, Z.pow_0_r, Z.mul_1_r by lia.
    rewrite (proj2 (Z.leb_gt _ _)) by (change (10 ^ 21) with 1000000000000000000000;
                                       change (2 ^ 53) with 9007199254740992 in Hn; lia).
    cbn [andb]. unfold hundredths. change (0 <=? 0) with true. cbn iota.
    rewrite Z2Pos.id, Z.pow_0_r, Z.mul_1_r by lia.
    rewrite (Z.mul_comm n 100). destruct n as [|p|p]; [lia| |lia]. reflexivity.
  - unfold pack. rewrite (proj2 (Z.eqb_neq _ _)) by lia.
    apply fixed2_near; [lia | lia | lia |].
    replace (- - k) with k by lia.
    replace (200 * (n * 2 ^ k) - 2 * (100 * n) * 2 ^ k) with 0 by ring.
    apply Z.pow_pos_nonneg; lia.
Qed.

(** The tax: 7% of a whole-dollar subtotal, as the code computes it, is
    the double of the exact amount in cents. *)
Lemma tax_cents raw :
  0 < raw < 2 ^ 45 →
  fixed2 (SFmul prec emax (of_Z raw) (decimal 7 2)) = decimal (7 * raw) 2.
Proof.
  intros Hraw.
  assert (2 ^ 45 < 2 ^ 53) as H45 by (by apply Z.pow_lt_mono_r).
  assert (decimal 7 2 = S754_finite false 5044031582654956 (-56)) as ->
    by (by vm_compute).
  rewrite of_Z_pos by lia. rewrite <- pack_normal by lia.
  destruct (scale_normal raw ltac:(lia)) as [Hk Hr]. cbn zeta in Hk, Hr.
  set (k := 52 - Z.log2 raw) in *. replace (Z.log2 raw - 52) with (- k) by lia.
  assert (8 ≤ k) as Hk8.
  { assert (Z.log2 raw < 45); [|lia]. apply Z.log2_lt_pow2; lia. }
  set (R := raw * 2 ^ k) in *.
  unfold pack. rewrite (proj2 (Z.eqb_neq _ _)) by lia.
  set (n := if R * 5044031582654956 <? 2 ^ 105 then 52 else 53).
  assert (52 ≤ n ≤ 53 ∧ 2 ^ (52 + n) ≤ R * 5044031582654956 < 2 ^ (53 + n))
    as [Hn HP].
  { subst n. change (2 ^ 52) with 4503599627370496 in Hr.
    change (2 ^ 53) with 9007199254740992 in Hr.
    destruct (Z.ltb_spec (R * 5044031582654956) (2 ^ 105)) as [Hlt|Hge].
    - split; [lia|]. split; [|exact Hlt].
      change (2 ^ (52 + 52)) with (4503599627370496 * 4503599627370496). nia.
    - split; [lia|]. split; [exact Hge|].
      change (2 ^ (53 + 53)) with (9007199254740992 * 9007199254740992). nia. }
  rewrite (SFmul_nearest _ _ _ _ _ _ n); [| lia | by rewrite Z2Pos.id by lia | lia | lia].
  rewrite Z2Pos.id by lia. change (Z.pos 5044031582654956) with 5044031582654956.
  cbn [xorb].
  assert (0 < 2 ^ n) as Hpn by (apply Z.pow_pos_nonneg; lia).
  pose proof (nearest_bound (R * 5044031582654956) (2 ^ n) Hpn) as Hb.
  pose proof (nearest_range (R * 5044031582654956) n ltac:(lia) HP) as HM.
  set (M := nearest (R * 5044031582654956) (2 ^ n)) in *. clearbody M.
  apply fixed2_pack; [done | lia | lia |].
  replace (- (- k + -56 + n)) with (k + 56 - n) by lia.
  assert (0 < 2 ^ (k + 56 - n)) as HpD by (apply Z.pow_pos_nonneg; lia).
  apply (Z.mul_lt_mono_pos_r (2 ^ n)); [done|].
  rewrite <- (Z.abs_eq (2 ^ n)) at 1 by lia. rewrite <- Z.abs_mul.
  assert (2 ^ (k + 56 - n) * 2 ^ n = 2 ^ k * 2 ^ 56) as ED
    by (rewrite <- !Z.pow_add_r by lia; f_equal; lia).
  rewrite ED.
  replace ((200 * M - 2 * (7 * raw) * 2 ^ (k + 56 - n)) * 2 ^ n)
    with (200 * (M * 2 ^ n) - 14 * raw * (2 ^ (k + 56 - n) * 2 ^ n)) by ring.
  rewrite ED.
  replace (14 * raw * (2 ^ k * 2 ^ 56)) with (14 * 2 ^ 56 * R) by (subst R; ring).
  assert (2 ^ n ≤ 2 ^ 53) as Hn53 by (apply Z.pow_le_mono_r; lia).
  assert (2 ^ 8 ≤ 2 ^ k) as Hk256 by (apply Z.pow_le_mono_r; lia).
  set (A := M * 2 ^ n) in *.
  replace (2 * M * 2 ^ n) with (2 * A) in Hb by (subst A; ring).
  set (Pn := 2 ^ n) in *. set (Pk := 2 ^ k) in *. clearbody A Pn Pk R.
  change (2 ^ 56) with 72057594037927936.
  change (2 ^ 53) with 9007199254740992 in *.
  change (2 ^ 52) with 4503599627370496 in *.
  change (2 ^ 8) with 256 in *. lia.
Qed.

(** *** The total *)

Lemma scale_exists_fuel (f : nat) a b :
  0 < a → 0 < b → a < 2 ^ 53 * b → 2 ^ 52 * b ≤ a * 2 ^ Z.of_nat f →
  ∃ k, 0 ≤ k ∧ 2 ^ 52 * b ≤ a * 2 ^ k < 2 ^ 53 * b.
Proof.
  revert a. induction f as [|f IH]; intros a Ha Hb Hlt Hf.
  - exists 0. change (2 ^ Z.of_nat 0) with 1 in Hf. change (2 ^ 0) with 1. lia.
  - destruct (Z_lt_le_dec a (2 ^ 52 * b)) as [Hsmall|Hbig].
    + destruct (IH (2 * a)) as (k & Hk & Hr); [lia | done | | |].
      * change (2 ^ 53) with (2 * 2 ^ 52). lia.
      * rewrite Nat2Z.inj_succ, Z.pow_succ_r in Hf by lia. lia.
      * exists (k + 1). split; [lia|]. rewrite Z.pow_add_r by lia.
        change (2 ^ 1) with 2. lia.
    + exists 0. change (2 ^ 0) with 1. lia.
Qed.

Lemma scale_exists a b :
  0 < a → 0 < b → a < 2 ^ 53 * b →
  ∃ k, 0 ≤ k ∧ 2 ^ 52 * b ≤ a * 2 ^ k < 2 ^ 53 * b.
Proof.
  intros Ha Hb Hlt.
  apply (scale_exists_fuel (Z.to_nat (53 + Z.log2 b))); try done.
  pose proof (Z.log2_nonneg b). pose proof (Z.log2_spec b Hb) as [_ Hs].
  rewrite Z2Nat.id by lia.
  replace (53 + Z.log2 b) with (52 + Z.succ (Z.log2 b)) by lia.
  rewrite Z.pow_add_r by lia.
  assert (0 < 2 ^ 52) by done.
  assert (0 < 2 ^ Z.succ (Z.log2 b)) by lia. nia.
Qed.

(** A decimal of two places as a double. *)
Lemma decimal_nearest N :
  0 < N < 100 * 2 ^ 53 →
  ∃ k, 0 ≤ k < 60 ∧ 2 ^ 52 * 100 ≤ N * 2 ^ k < 2 ^ 53 * 100
       ∧ decimal N 2 = pack false (nearest (N * 2 ^ k) 100) (- k).
Proof.
  intros HN. destruct (scale_exists N 100) as (k & Hk & Hr); [lia | done | lia |].
  assert (k < 60) as Hk60.
  { apply pow2_lt_inv; [|done].
    assert (0 < 2 ^ k) by (apply Z.pow_pos_nonneg; lia).
    apply Z.le_lt_trans with (N * 2 ^ k); [nia|].
    apply Z.lt_trans with (2 ^ 53 * 100); [lia|done]. }
  exists k. split; [lia|]. split; [done|].
  unfold decimal. change (10 ^ Z.of_nat 2) with 100.
  apply SFdiv_nearest; lia.
Qed.

(** Adding a smaller double to the double of an integer. *)
Lemma SFadd_of_Z_pack s M kt n :
  0 < s < 2 ^ 53 → 2 ^ 52 ≤ M ≤ 2 ^ 53 → 52 - Z.log2 s < kt ≤ 1000 →
  let sum := s * 2 ^ kt + M in
  1 ≤ n ≤ kt → 2 ^ (52 + n) ≤ sum < 2 ^ (53 + n) →
  SFadd prec emax (of_Z s) (pack false M (- kt))
  = pack false (nearest sum (2 ^ n)) (n - kt).
Proof.
  intros Hs HM Hkt sum Hn Hsum.
  rewrite of_Z_pos by done. rewrite <- pack_normal by done.
  destruct (scale_normal s Hs) as [Hk Hr]. cbn zeta in Hk, Hr.
  set (ks := 52 - Z.log2 s) in *. replace (Z.log2 s - 52) with (- ks) by lia.
  assert (0 < 2 ^ ks) as Hpk by (apply Z.pow_pos_nonneg; lia).
  unfold pack at 1. rewrite (proj2 (Z.eqb_neq _ _)) by lia.
  unfold pack at 1. destruct (M =? 2 ^ 53) eqn:E53.
  - apply Z.eqb_eq in E53.
    rewrite (SFadd_nearest _ _ _ _ (n - 1)).
    + rewrite Z.min_r by lia. rewrite !Z2Pos.id by lia.
      replace (- kt + 1 - (- kt + 1)) with 0 by lia.
      replace (- ks - (- kt + 1)) with (kt - 1 - ks) by lia.
      rewrite <- Z.mul_assoc, <- Z.pow_add_r by lia.
      replace (ks + (kt - 1 - ks)) with (kt - 1) by lia.
      change (2 ^ 0) with 1. rewrite Z.mul_1_r.
      replace (- kt + 1 + (n - 1)) with (n - kt) by lia. f_equal.
      rewrite <- (nearest_scale 2 _ (2 ^ (n - 1))) by (try apply Z.pow_pos_nonneg; lia).
      f_equal.
      * subst sum. rewrite E53. change (2 ^ 53) with (2 * 2 ^ 52).
        replace kt with (kt - 1 + 1) at 2 by lia. rewrite Z.pow_add_r by lia.
        change (2 ^ 1) with 2. lia.
      * replace n with (n - 1 + 1) at 2 by lia. rewrite Z.pow_add_r by lia.
        change (2 ^ 1) with 2. lia.
    + lia.
    + rewrite Z.min_r by lia. rewrite !Z2Pos.id by lia.
      replace (- kt + 1 - (- kt + 1)) with 0 by lia.
      replace (- ks - (- kt + 1)) with (kt - 1 - ks) by lia.
      rewrite <- Z.mul_assoc, <- Z.pow_add_r by lia.
      replace (ks + (kt - 1 - ks)) with (kt - 1) by lia.
      change (2 ^ 0) with 1. rewrite Z.mul_1_r.
      assert (sum = 2 * (s * 2 ^ (kt - 1) + 2 ^ 52)) as Es.
      { subst sum. rewrite E53. change (2 ^ 53) with (2 * 2 ^ 52).
        replace kt with (kt - 1 + 1) at 1 by lia. rewrite Z.pow_add_r by lia.
        change (2 ^ 1) with 2. lia. }
      replace (52 + n) with (52 + (n - 1) + 1) in Hsum by lia.
      replace (53 + n) with (53 + (n - 1) + 1) in Hsum by lia.
      rewrite !(Z.pow_add_r 2 _ 1) in Hsum by lia. change (2 ^ 1) with 2 in Hsum.
      lia.
    + rewrite Z.min_r by lia. lia.
    + rewrite Z.min_r by lia. lia.
  - apply Z.eqb_neq in E53.
    rewrite (SFadd_nearest _ _ _ _ n).
    + rewrite Z.min_r by lia. rewrite !Z2Pos.id by lia.
      replace (- kt - - kt) with 0 by lia.
      replace (- ks - - kt) with (kt - ks) by lia.
      rewrite <- Z.mul_assoc, <- Z.pow_add_r by lia.
      replace (ks + (kt - ks)) with kt by lia.
      change (2 ^ 0) with 1. rewrite Z.mul_1_r.
      f_equal. lia.
    + lia.
    + rewrite Z.min_r by lia. rewrite !Z2Pos.id by lia.
      replace (- kt - - kt) with 0 by lia.
      replace (- ks - - kt) with (kt - ks) by lia.
      rewrite <- Z.mul_assoc, <- Z.pow_add_r by lia.
      replace (ks + (kt - ks)) with kt by lia.
      change (2 ^ 0) with 1. rewrite Z.mul_1_r. exact Hsum.
    + rewrite Z.min_r by lia. lia.
    + rewrite Z.min_r by lia. lia.
Qed.

(** The sum of a whole number of dollars and the double of an amount in
    cents rounds to the double of the exact sum, when that sum is a
    multiple of 5 cents and at least 15 times the amount in cents: the
    exact sum is then at least a tenth of a unit in the last place away
    from the middle between two doubles, and the rounding of the cents
    is at most a sixteenth. *)
Lemma total_nearest s K c k kt :
  let N := 100 * s + K in
  0 < s → 0 < K → 15 * K < N → N = 5 * c → 2 ≤ k → 0 ≤ kt →
  2 ^ 52 * 100 ≤ N * 2 ^ k < 2 ^ 53 * 100 →
  2 ^ 52 * 100 ≤ K * 2 ^ kt < 2 ^ 53 * 100 →
  let n := kt - k in
  let sum := s * 2 ^ kt + nearest (K * 2 ^ kt) 100 in
  3 ≤ n ∧ 2 ^ (52 + n) ≤ sum < 2 ^ (53 + n)
  ∧ nearest sum (2 ^ n) = nearest (N * 2 ^ k) 100.
Proof.
  intros N Hs HK H15 Hc Hk Hkt HA HB n sum.
  assert (0 < 2 ^ k ∧ 0 < 2 ^ kt) as [Hpk Hpkt]
    by (split; apply Z.pow_pos_nonneg; lia).
  assert (3 ≤ n) as Hn.
  { subst n. destruct (Z_lt_le_dec (kt - k) 3) as [Hlt|]; [exfalso|done].
    assert (2 ^ kt ≤ 4 * 2 ^ k) as Hle.
    { change 4 with (2 ^ 2). rewrite <- Z.pow_add_r by lia.
      apply Z.pow_le_mono_r; lia. }
    assert (15 * (K * 2 ^ kt) < 4 * (N * 2 ^ k)) by nia.
    change (2 ^ 52) with 4503599627370496 in *.
    change (2 ^ 53) with 9007199254740992 in *. lia. }
  split; [done|].
  assert (0 < 2 ^ n) as Hpn by (apply Z.pow_pos_nonneg; lia).
  assert (8 ≤ 2 ^ n) as Hn8
    by (change 8 with (2 ^ 3); apply Z.pow_le_mono_r; lia).
  assert (2 ^ kt = 2 ^ k * 2 ^ n) as Ekt
    by (rewrite <- Z.pow_add_r by lia; f_equal; lia).
  rewrite !(Z.pow_add_r 2 _ n) by lia.
  set (A := N * 2 ^ k) in *. set (B := K * 2 ^ kt) in *.
  assert (A * 2 ^ n = 100 * (s * 2 ^ kt) + B) as EAB
    by (subst A B N; rewrite Ekt; ring).
  assert (∃ A', A = 20 * A') as [A' EA].
  { exists (c * 2 ^ (k - 2)). subst A. rewrite Hc.
    replace k with (2 + (k - 2)) at 1 by lia. rewrite Z.pow_add_r by lia.
    change (2 ^ 2) with 4. ring. }
  pose proof (nearest_bound B 100 ltac:(lia)) as HMt.
  set (Mt := nearest B 100) in *.
  set (S0 := s * 2 ^ kt) in *.
  pose proof (Z.div_mod A' 5 ltac:(lia)) as Hdm.
  pose proof (Z.mod_pos_bound A' 5 ltac:(lia)) as Hr5.
  set (h := A' / 5) in *. set (r := A' mod 5) in *.
  set (Pn := 2 ^ n) in *.
  change (2 ^ 52) with 4503599627370496 in *.
  change (2 ^ 53) with 9007199254740992 in *.
  destruct (decide (r = 0)) as [Hr0|Hr0].
  - (* the exact sum is a whole significand *)
    assert (A = h * 100) as EAh by lia.
    assert (B = (h * Pn - S0) * 100) as EB by lia.
    assert (Mt = h * Pn - S0) as EMt by (subst Mt; rewrite EB; by apply nearest_exact).
    assert (sum = h * Pn) as -> by (subst sum; lia).
    rewrite EAh, !nearest_exact by lia.
    clearbody Pn A B Mt S0 h r. split; [nia|done].
  - assert (nearest A 100 = if decide (r ≤ 2) then h else h + 1) as EM.
    { apply nearest_unique; [lia|]. destruct (decide (r ≤ 2)); lia. }
    rewrite EM.
    set (M := if decide (r ≤ 2) then h else h + 1) in *.
    assert (Z.abs (A - 100 * M) ≤ 40) as HAM
      by (subst M; destruct (decide (r ≤ 2)); lia).
    assert (4503599627370496 * 100 + 20 ≤ A ≤ 9007199254740992 * 100 - 20) as HA'
      by lia.
    assert (100 * sum = A * Pn + (100 * Mt - B)) as Esum by (subst sum; lia).
    clearbody Pn A B Mt S0 h r M sum.
    split; [split; nia|].
    apply nearest_unique; [done|].
    assert (Z.abs (100 * (2 * sum - 2 * M * Pn)) < 100 * Pn); [|lia].
    replace (100 * (2 * sum - 2 * M * Pn))
      with (2 * ((A - 100 * M) * Pn) + 2 * (100 * Mt - B)) by lia.
    assert (Z.abs ((A - 100 * M) * Pn) ≤ 40 * Pn) by (rewrite Z.abs_mul; nia).
    lia.
Qed.

(** The three rounded amounts of the summary for a subtotal of [raw]
    whole dollars, a multiple of 5, with the fee 5.00. *)
Lemma summary_amounts raw :
  0 < raw ≤ 3 * 10 ^ 13 → (5 | raw) →
  fixed2 (of_Z raw) = of_Z raw
  ∧ of_Z raw = decimal (100 * raw) 2
  ∧ fixed2 (SFmul prec emax (of_Z raw) (decimal 7 2)) = decimal (7 * raw) 2
  ∧ SFadd prec emax (SFadd prec emax (of_Z raw) (decimal 500 2))
      (decimal (7 * raw) 2)
    = decimal (107 * raw + 500) 2
  ∧ fixed2 (decimal (107 * raw + 500) 2) = decimal (107 * raw + 500) 2.
Proof.
  intros Hraw [m Hm]. change (3 * 10 ^ 13) with 30000000000000 in Hraw.
  assert (2 ^ 45 = 35184372088832) as E45 by done.
  assert (2 ^ 53 = 9007199254740992) as E53 by done.
  assert (2 ^ 52 = 4503599627370496) as E52 by done.
  split; [apply fixed2_of_Z; lia|].
  split; [symmetry; apply decimal_2_of_Z; lia|].
  split; [apply tax_cents; lia|].
  set (s := raw + 5). set (K := 7 * raw). set (N := 107 * raw + 500).
  assert (decimal 500 2 = of_Z 5) as -> by (by apply (decimal_2_of_Z 5)).
  rewrite SFadd_of_Z by lia. fold s.
  destruct (decimal_nearest K) as (kt & Hkt & HB & Et); [subst K; lia|].
  destruct (decimal_nearest N) as (k & Hk & HA & En); [subst N; lia|].
  assert (0 < 2 ^ k ∧ 0 < 2 ^ kt) as [Hpk Hpkt]
    by (split; apply Z.pow_pos_nonneg; lia).
  assert (8 ≤ k) as Hk8.
  { destruct (Z_lt_le_dec k 8) as [Hlt|]; [exfalso|done].
    assert (2 ^ k ≤ 2 ^ 7) as Hle by (apply Z.pow_le_mono_r; lia).
    change (2 ^ 7) with 128 in Hle.
    assert (N * 2 ^ k ≤ N * 128) by (apply Z.mul_le_mono_nonneg_l; subst N; lia).
    subst N. lia. }
  destruct (total_nearest s K (107 * m + 100) k kt) as (Hn & Hsum & Enear);
    [subst s; lia | subst K; lia | subst s K; lia | subst s K; lia | lia | lia
     | subst s K N; replace (100 * (raw + 5) + 7 * raw) with (107 * raw + 500) by lia;
       exact HA
     | exact HB |].
  cbn zeta in Hn, Hsum, Enear.
  replace (100 * s + K) with N in Enear by (subst s K N; lia).
  pose proof (nearest_range_div (K * 2 ^ kt) 100 ltac:(lia) HB) as HMt.
  pose proof (nearest_range_div (N * 2 ^ k) 100 ltac:(lia) HA) as HM.
  pose proof (nearest_bound (N * 2 ^ k) 100 ltac:(lia)) as HMb.
  assert (52 - Z.log2 s < kt) as Hks.
  { destruct (scale_normal s ltac:(subst s; lia)) as [Hks Hrs]. cbn zeta in Hks, Hrs.
    set (ks := 52 - Z.log2 s) in *.
    destruct (Z_lt_le_dec ks kt) as [|Hle]; [done|exfalso].
    assert (2 ^ kt ≤ 2 ^ ks) as Hp by (apply Z.pow_le_mono_r; lia).
    assert (K * 2 ^ kt ≤ K * 2 ^ ks) by (subst K; nia).
    assert (7 * (s * 2 ^ ks) = 7 * s * 2 ^ ks) by ring.
    assert (K * 2 ^ ks < 7 * s * 2 ^ ks)
      by (apply Z.mul_lt_mono_pos_r; [apply Z.pow_pos_nonneg|subst K s]; lia).
    lia. }
  split.
  - rewrite Et, En, <- Enear.
    rewrite (SFadd_of_Z_pack s _ kt (kt - k)); [| subst s; lia | done | lia | lia | done].
    f_equal. lia.
  - rewrite En at 1. set (M := nearest (N * 2 ^ k) 100) in *. clearbody M.
    apply fixed2_pack; [done | lia | subst N; lia |].
    replace (- - k) with k by lia.
    assert (128 < 2 ^ k).
    { apply Z.lt_le_trans with (2 ^ 8); [done|]. apply Z.pow_le_mono_r; lia. }
    set (P := 2 ^ k) in *. set (NP := N * P) in *.
    replace (2 * N * P) with (2 * NP) by (subst NP; ring).
    clearbody P NP. lia.
Qed.

(** *** The lines and their sum *)

Lemma price_dollars pid :
  price (default {| id := pid; name := pid; price := lit 0 0; img := None |}
           (find_product (num:=spec_float) pid))
  = decimal (100 * dollars pid) 2.
Proof.
  unfold find_product, MOCK_PRODUCTS, dollars. cbn [find id].
  destruct (decide (pid = js "p1")) as [->|H1]; [done|].
  rewrite (bool_decide_eq_false_2 (js "p1" = pid)) by congruence.
  rewrite (bool_decide_eq_false_2 (pid = js "p1")) by done.
  destruct (decide (pid = js "p2")) as [->|H2]; [done|].
  rewrite (bool_decide_eq_false_2 (js "p2" = pid)) by congruence.
  rewrite (bool_decide_eq_false_2 (pid = js "p2")) by done.
  destruct (decide (pid = js "p3")) as [->|H3]; [done|].
  rewrite (bool_decide_eq_false_2 (js "p3" = pid)) by congruence.
  rewrite (bool_decide_eq_false_2 (pid = js "p3")) by done.
  destruct (decide (pid = js "p4")) as [->|H4]; [done|].
  rewrite (bool_decide_eq_false_2 (js "p4" = pid)) by congruence.
  rewrite (bool_decide_eq_false_2 (pid = js "p4")) by done.
  done.
Qed.

Lemma dollars_bound pid : 0 ≤ dollars pid ≤ 70.
Proof. unfold dollars. repeat case_bool_decide; lia. Qed.

(** While a quantity is at most 10^11, its line total is a whole number
    of dollars, computed exactly. *)
Lemma line_total_dollars (entry : jsstring * Z) :
  0 ≤ entry.2 ≤ 10 ^ 11 →
  line_total (cart_line (num:=spec_float) entry) = of_Z (line_dollars entry).
Proof.
  destruct entry as [pid q]. cbn [fst snd]. intros Hq.
  change (10 ^ 11) with 100000000000 in Hq.
  assert (2 ^ 53 = 9007199254740992) as E53 by done.
  pose proof (dollars_bound pid) as HP.
  unfold cart_line, line_dollars. cbn [line_total fst snd].
  rewrite price_dollars. cbn [toFixed2 mul lit number].
  rewrite decimal_2_of_Z, decimal_0_of_Z by lia.
  rewrite SFmul_of_Z by nia. apply fixed2_of_Z. nia.
Qed.

Lemma dollars_nonneg pid : 0 ≤ dollars pid.
Proof. unfold dollars. repeat case_bool_decide; lia. Qed.

Lemma line_dollars_nonneg entry : 0 ≤ entry.2 → 0 ≤ line_dollars entry.
Proof. intros Hq. apply Z.mul_nonneg_nonneg; [apply dollars_nonneg | done]. Qed.

Lemma sumZ_cons x l : sumZ (x :: l) = x + sumZ l.
Proof. done. Qed.

Lemma sumZ_nonneg l : Forall (λ x, 0 ≤ x) l → 0 ≤ sumZ l.
Proof. induction 1; simpl; lia. Qed.

Lemma sumZ_perm l1 l2 : l1 ≡ₚ l2 → sumZ l1 = sumZ l2.
Proof. induction 1; simpl; lia. Qed.

Lemma sumZ_dollars_nonneg (entries : list (jsstring * Z)) :
  Forall (λ entry, 0 ≤ entry.2 ≤ 10 ^ 11) entries →
  0 ≤ sumZ (line_dollars <$> entries).
Proof.
  intros Hq. apply sumZ_nonneg, Forall_fmap.
  eapply Forall_impl; [exact Hq|]. intros e He. apply line_dollars_nonneg. simpl in He. lia.
Qed.

(** Sums of whole dollars are exact. *)
Lemma foldl_dollars (entries : list (jsstring * Z)) (s : Z) :
  0 ≤ s →
  Forall (λ entry, 0 ≤ entry.2 ≤ 10 ^ 11) entries →
  s + sumZ (line_dollars <$> entries) < 2 ^ 53 →
  foldl (λ s it, add s (line_total it)) (of_Z s) (cart_line (num:=spec_float) <$> entries)
  = of_Z (s + sumZ (line_dollars <$> entries)).
Proof.
  intros Hs Hq. revert s Hs.
  induction Hq as [|e entries He Hq IH]; intros s Hs Hb.
  - simpl. by rewrite Z.add_0_r.
  - rewrite !fmap_cons in *. rewrite sumZ_cons in *. cbn [foldl].
    pose proof (sumZ_dollars_nonneg entries Hq).
    pose proof (line_dollars_nonneg e ltac:(lia)).
    rewrite line_total_dollars by done.
    change (add (of_Z s) (of_Z (line_dollars e)))
      with (SFadd prec emax (of_Z s) (of_Z (line_dollars e))).
    rewrite SFadd_of_Z by lia. rewrite IH by lia. f_equal. lia.
Qed.

Lemma js_p_distinct :
  js "p1" ≠ js "p2" ∧ js "p1" ≠ js "p3" ∧ js "p1" ≠ js "p4"
  ∧ js "p2" ≠ js "p3" ∧ js "p2" ≠ js "p4" ∧ js "p3" ≠ js "p4".
Proof. repeat split; discriminate. Qed.

Lemma cart_dollars_closed (c : Cart) :
  cart_dollars c
  = 45 * default 0 (c !! js "p1") + 70 * default 0 (c !! js "p2")
    + 60 * default 0 (c !! js "p3") + 30 * default 0 (c !! js "p4").
Proof.
  induction c as [|k v m Hk IH] using map_ind.
  - unfold cart_dollars. by rewrite map_to_list_empty, !lookup_empty.
  - unfold cart_dollars in *.
    rewrite (sumZ_perm _ _ (fmap_Permutation _ _ _ (map_to_list_insert m k v Hk))).
    rewrite fmap_cons, sumZ_cons, IH. unfold line_dollars, dollars. cbn [fst snd].
    destruct js_p_distinct as (?&?&?&?&?&?).
    repeat case_bool_decide; subst;
      rewrite ?lookup_insert_eq, ?lookup_insert_ne, ?Hk by done; simpl; lia.
Qed.

Lemma default_bounded (c : Cart) pid bound :
  0 ≤ bound → (∀ pid q, c !! pid = Some q → 0 ≤ q ≤ bound) →
  0 ≤ default 0 (c !! pid) ≤ bound.
Proof.
  intros Hb Hc. destruct (c !! pid) as [q|] eqn:E; simpl; [by eapply Hc | lia].
Qed.

(** The subtotal in dollars is a multiple of 5, up to 205 times the
    largest quantity. *)
Lemma cart_dollars_multiple (c : Cart) bound :
  0 ≤ bound → (∀ pid q, c !! pid = Some q → 0 ≤ q ≤ bound) →
  ∃ k, cart_dollars c = 5 * k ∧ 0 ≤ k ≤ 41 * bound.
Proof.
  intros Hb Hc. pose proof (cart_dollars_closed c) as Hclosed.
  pose proof (default_bounded c (js "p1") bound Hb Hc).
  pose proof (default_bounded c (js "p2") bound Hb Hc).
  pose proof (default_bounded c (js "p3") bound Hb Hc).
  pose proof (default_bounded c (js "p4") bound Hb Hc).
  exists (9 * default 0 (c !! js "p1") + 14 * default 0 (c !! js "p2")
          + 12 * default 0 (c !! js "p3") + 6 * default 0 (c !! js "p4")).
  lia.
Qed.
End Binary64Facts.

Section PricingClaims.
Context {cart_codec : JSON Cart}.


(** While the quantities are from 0 to 10^11, the line totals are whole
    dollars and their sum is exact. *)
Lemma sum_lines_binary64 ls :
  (∀ pid q, persisted ls !! pid = Some q → (0 ≤ q ≤ 10 ^ 11)%Z) →
  foldl (λ s it, SFadd Binary64.prec Binary64.emax s (line_total it))
    (Binary64.decimal 0 0)
    (cart_line (num:=spec_float) <$> map_to_list (persisted ls))
  = Binary64.of_Z (cart_dollars (persisted ls)).
Proof.
  intros Hc.
  assert (Forall (λ entry, 0 ≤ entry.2 ≤ 10 ^ 11)%Z (map_to_list (persisted ls))) as Hq.
  { apply Forall_forall. intros [pid q] Hin. apply elem_of_map_to_list in Hin.
    simpl. by eapply Hc. }
  destruct (Binary64Facts.cart_dollars_multiple _ (10 ^ 11) ltac:(done) Hc)
    as (k & Hk & Hkb).
  change (Binary64.decimal 0 0) with (Binary64.of_Z 0).
  pose proof (Binary64Facts.foldl_dollars (map_to_list (persisted ls)) 0) as H.
  cbn [add Binary64.number] in H. rewrite H; [done | done | done |].
  change (sumZ (line_dollars <$> map_to_list (persisted ls)))
    with (cart_dollars (persisted ls)).
  change (10 ^ 11)%Z with 100000000000%Z in Hkb.
  change (2 ^ 53)%Z with 9007199254740992%Z. lia.
Qed.

(** The summary in binary64 while the quantities are from 0 to 10^11:
    the amounts are the doubles of the exact amounts in cents, and they
    add up as doubles. *)
Lemma getCart_binary64 ls :
  (∀ pid q, persisted ls !! pid = Some q → (0 ≤ q ≤ 10 ^ 11)%Z) →
  let d := cart_dollars (persisted ls) in
  let fee := if bool_decide (persisted ls = ∅) then 0%Z else 500%Z in
  ∃ v, getCart (num:=spec_float) ls = (Ok v, ls)
    ∧ items v = cart_line <$> map_to_list (persisted ls)
    ∧ subtotal v = Binary64.of_Z d
    ∧ subtotal v = Binary64.decimal (100 * d) 2
    ∧ shipping v = Binary64.decimal fee 2
    ∧ tax v = Binary64.fixed2
                (SFmul Binary64.prec Binary64.emax (subtotal v)
                   (Binary64.decimal 7 2))
    ∧ tax v = Binary64.decimal (7 * d) 2
    ∧ total v = SFadd Binary64.prec Binary64.emax
                  (SFadd Binary64.prec Binary64.emax
                     (Binary64.fixed2 (subtotal v)) (shipping v))
                  (tax v)
    ∧ total v = Binary64.decimal (107 * d + fee) 2.
Proof.
  intros Hc d fee. eexists. split; [apply getCart_run|].
  split; [done|].
  pose proof (sum_lines_binary64 ls Hc) as Hraw. fold d in Hraw.
  destruct (Binary64Facts.cart_dollars_multiple _ (10 ^ 11) ltac:(done) Hc)
    as (k & Hk & Hkb).
  fold d in Hk. change (10 ^ 11)%Z with 100000000000%Z in Hkb.
  unfold summary. cbn [items subtotal shipping tax total].
  cbn [add mul lit toFixed2 Binary64.number]. rewrite Hraw, length_fmap.
  assert ((if bool_decide (0 < length (map_to_list (persisted ls)))
           then Binary64.decimal 500 2 else Binary64.decimal 0 0)
          = Binary64.decimal fee 2) as ->.
  { subst fee. destruct (decide (persisted ls = ∅)) as [He|Hne].
    - rewrite He, map_to_list_empty.
      rewrite (bool_decide_eq_true_2 (∅ = ∅)) by done. reflexivity.
    - rewrite (bool_decide_eq_false_2 (persisted ls = ∅)) by done.
      rewrite bool_decide_eq_true_2; [done|].
      destruct (map_to_list (persisted ls)) eqn:E; [|simpl; lia].
      by apply map_to_list_empty_iff in E. }
  destruct (decide (d = 0%Z)) as [E0|Hpos].
  - rewrite E0. subst fee. by case_bool_decide; vm_compute.
  - assert (fee = 500%Z) as ->.
    { subst fee. case_bool_decide as He; [|done]. exfalso. apply Hpos.
      subst d. unfold cart_dollars. by rewrite He, map_to_list_empty. }
    destruct (Binary64Facts.summary_amounts d) as (H1 & H2 & H3 & H4 & H5).
    { change (3 * 10 ^ 13)%Z with 30000000000000%Z. lia. }
    { exists k. lia. }
    rewrite !H1, H3, H4, H5. done.
Qed.


(** C9.  For the stored mapping [{p1: 2, p3: 1}], with catalog prices
    45.00 for p1 and 60.00 for p3, the priced cart has subtotal 150.00,
    shipping 5.00, tax 10.50 and total 165.50: in binary64 these are the
    doubles those decimals denote, in exact arithmetic the numbers
    themselves. *)
Theorem getCart_example ls0 :
  let ls := <[fh_cart := JSON_stringify example_cart]> ls0 in
  (price <$> find_product (num:=spec_float) (js "p1")
     = Some (Binary64.decimal 4500 2)
   ∧ price <$> find_product (num:=spec_float) (js "p3")
     = Some (Binary64.decimal 6000 2))
  ∧ (∃ v, getCart (num:=spec_float) ls = (Ok v, ls)
       ∧ subtotal v = Binary64.decimal 15000 2
       ∧ shipping v = Binary64.decimal 500 2
       ∧ tax v = Binary64.decimal 1050 2
       ∧ total v = Binary64.decimal 16550 2)
  ∧ (∃ v, getCart (num:=Qc) ls = (Ok v, ls)
       ∧ subtotal v = Exact.decimal 15000 2
       ∧ shipping v = Exact.decimal 500 2
       ∧ tax v = Exact.decimal 1050 2
       ∧ total v = Exact.decimal 16550 2).
Proof.
  intros ls. split; [done|]. split.
  - eexists. split; [apply getCart_run|].
    subst ls. rewrite persisted_write. by vm_compute.
  - eexists. split; [apply getCart_run|].
    subst ls. rewrite persisted_write.
    repeat split; apply Qc_is_canon; by vm_compute.
Qed.
End PricingClaims.

(** ** The executable codec is a codec *)

Module CodecLaws.
Import Codec.

Lemma number_digits p : number (digits p) = Some p.
Proof. induction p as [p IH|p IH|]; simpl; rewrite ?IH; done. Qed.

Lemma read_write {A} `{Countable A} (a : A) : read (write a) = Some a.
Proof.
  unfold read, write. rewrite number_digits. simpl. apply decode_encode.
Qed.

Definition json {A} `{Countable A} : JSON A := {|
  JSON_stringify := write;
  JSON_text := read;
  JSON_text_stringify := read_write;
  JSON_text_empty := eq_refl;
|}.
Definition cart_json : JSON Cart := json.
Definition user_json : JSON User := json.
End CodecLaws.

(** ** The embedding on small inputs *)

Example base64_Man : base64 (js "Man") = js "TWFu".
Proof. reflexivity. Qed.

Example base64_padding : base64 (js "a:1") = js "YTox" ∧ base64 (js "ab") = js "YWI=".
Proof. split; reflexivity. Qed.

(** Binary64 shows through: [0.1 + 0.2] is not [0.3], [150 * 0.07] is not
    [10.5] until it is rounded, and [(1.005).toFixed(2)] is ["1.00"]. *)
Example binary64_sum :
  SFadd Binary64.prec Binary64.emax (Binary64.decimal 1 1) (Binary64.decimal 2 1)
  ≠ Binary64.decimal 3 1.
Proof. by vm_compute. Qed.

Example binary64_tax :
  SFmul Binary64.prec Binary64.emax (Binary64.decimal 150 0) (Binary64.decimal 7 2)
  ≠ Binary64.decimal 1050 2
  ∧ Binary64.fixed2
      (SFmul Binary64.prec Binary64.emax (Binary64.decimal 150 0)
         (Binary64.decimal 7 2))
    = Binary64.decimal 1050 2.
Proof. split; by vm_compute. Qed.

Example binary64_toFixed :
  Binary64.fixed2 (Binary64.decimal 1005 3) = Binary64.decimal 100 2
  ∧ Binary64.fixed2 (Binary64.decimal 125 3) = Binary64.decimal 13 2
  ∧ Binary64.fixed2 (Binary64.decimal (-1) 3) = S754_zero true.
Proof. repeat split; by vm_compute. Qed.

Example exact_toFixed :
  Exact.fixed2 (Exact.decimal 1005 3) = Exact.decimal 101 2
  ∧ Exact.fixed2 (Exact.decimal (-1005) 3) = Exact.decimal (-101) 2.
Proof. split; apply Qc_is_canon; by vm_compute. Qed.

(** ** The claims at concrete inputs

    Storage starts empty and texts are written with [Codec]. *)

Ltac decide_now := apply (bool_decide_unpack _); vm_compute; exact I.



Lemma addToCart_adds_witness :
  js "p1" ∈ product_ids (num:=spec_float)
  ∧ (Z.abs (0 + double 2) ≤ 2 ^ 53)%Z
  ∧ (Z.abs (0 + double 2 + double 3) ≤ 2 ^ 53)%Z
  ∧ persisted (cart_codec:=CodecLaws.cart_json)
      (snd (addToCart (num:=spec_float) (cart_codec:=CodecLaws.cart_json) (js "p1")
              (double 3)
              (snd (addToCart (num:=spec_float) (cart_codec:=CodecLaws.cart_json)
                      (js "p1") (double 2) ∅)))) !! js "p1"
    = Some 5%Z.
Proof.
  assert (js "p1" ∈ product_ids (num:=spec_float)) as Hin by decide_now.
  assert (Z.abs (0 + double 2) ≤ 2 ^ 53)%Z as H1 by decide_now.
  assert (Z.abs (0 + double 2 + double 3) ≤ 2 ^ 53)%Z as H2 by decide_now.
  split; [exact Hin|]. split; [exact H1|]. split; [exact H2|].
  destruct (addToCart_adds (num:=spec_float) (cart_codec:=CodecLaws.cart_json) (js "p1") ∅)
    as [_ Hadd].
  destruct (Hadd Hin) as [_ Hseq].
  exact (proj2 (Hseq (double 2) (double 3) H1 H2)).
Defined.

(** C3 as stated fails: doubles do not hold every integer beyond 2^53.
    On the empty storage, adding 2^53 and then 1 of a catalog product
    stores 2^53, not their sum. *)
Lemma addToCart_rounds_beyond_2_53 :
  js "p1" ∈ product_ids (num:=spec_float)
  ∧ units (double (2 ^ 53)) = (2 ^ 53)%Z ∧ units (double 1) = 1%Z
  ∧ persisted (cart_codec:=CodecLaws.cart_json)
      (snd (addToCart (num:=spec_float) (cart_codec:=CodecLaws.cart_json) (js "p1")
              (double 1)
              (snd (addToCart (num:=spec_float) (cart_codec:=CodecLaws.cart_json)
                      (js "p1") (double (2 ^ 53)) ∅)))) !! js "p1"
    = Some (2 ^ 53)%Z
  ∧ (2 ^ 53)%Z ≠ (2 ^ 53 + 1)%Z.
Proof.
  assert (js "p1" ∈ product_ids (num:=spec_float)) as Hin by decide_now.
  split; [exact Hin|]. split; [by vm_compute|]. split; [by vm_compute|].
  split; [|done].
  rewrite !addToCart_known by done. cbn [snd].
  rewrite !persisted_write, !lookup_insert_eq. cbn [default].
  rewrite persisted_missing by done. by vm_compute.
Qed.

Lemma addToCart_NotFound_unchanged_witness :
  (js "p9" ∉ product_ids (num:=spec_float))
  ∧ addToCart (num:=spec_float) (cart_codec:=CodecLaws.cart_json) (js "p9") (double 1) ∅
    = (Throw NotFound, ∅).
Proof.
  assert (js "p9" ∉ product_ids (num:=spec_float)) as Hout by decide_now.
  split; [exact Hout|].
  exact (addToCart_NotFound_unchanged (num:=spec_float) (cart_codec:=CodecLaws.cart_json)
           (js "p9") (double 1) ∅ Hout).
Defined.



Lemma removeFromCart_idempotent_witness :
  persisted (cart_codec:=CodecLaws.cart_json) ∅ !! js "p2" = None
  ∧ persisted (cart_codec:=CodecLaws.cart_json)
      (snd (removeFromCart (cart_codec:=CodecLaws.cart_json) (js "p2") ∅))
    = persisted (cart_codec:=CodecLaws.cart_json) ∅.
Proof.
  assert (persisted (cart_codec:=CodecLaws.cart_json) ∅ !! js "p2" = None) as Habs
    by (by vm_compute).
  split; [exact Habs|].
  destruct (removeFromCart_idempotent (cart_codec:=CodecLaws.cart_json) (js "p2") ∅)
    as (_ & _ & Hnoop & _).
  exact (Hnoop Habs).
Defined.

Lemma checkout_clears_witness :
  persisted (cart_codec:=CodecLaws.cart_json) ∅ = ∅
  ∧ checkout (cart_codec:=CodecLaws.cart_json) 1700000000000 ∅
    = (Throw EmptyCart, ∅).
Proof.
  assert (persisted (cart_codec:=CodecLaws.cart_json) ∅ = ∅) as He
    by (by apply persisted_missing).
  split; [exact He|].
  exact (proj1 (checkout_clears (cart_codec:=CodecLaws.cart_json) 1700000000000 ∅) He).
Defined.


Lemma storage_reads_total_witness :
  let ls : Storage := {[ fh_cart := js "{oops" ]} in
  ls !! fh_cart = Some (js "{oops")
  ∧ JSON_text (JSON:=CodecLaws.cart_json) (js "{oops") = None
  ∧ _readCart (cart_codec:=CodecLaws.cart_json) ls = (Ok ∅, ls).
Proof.
  intros ls.
  assert (ls !! fh_cart = Some (js "{oops")) as Hraw by apply lookup_singleton_eq.
  assert (JSON_text (JSON:=CodecLaws.cart_json) (js "{oops") = None) as Hrej
    by reflexivity.
  split; [exact Hraw|]. split; [exact Hrej|].
  destruct (storage_reads_total (cart_codec:=CodecLaws.cart_json)
              (user_codec:=CodecLaws.user_json) ls) as (_ & _ & Hcart & _).
  exact (Hcart _ Hraw Hrej).
Defined.


(** * Further properties *)

(** ** Cart store: how the calls compose *)

Section CartStoreMore.
Context {num : Type} {arith : Number num} {cart_codec : JSON Cart}.

Lemma write_twice (c1 c2 : Cart) (ls : Storage) :
  <[fh_cart := JSON_stringify c2]> (<[fh_cart := JSON_stringify c1]> ls)
  = <[fh_cart := JSON_stringify c2]> ls.
Proof. apply insert_insert_eq. Qed.

(** X1.  Add item, set quantity and remove item act on the entry of
    their own id only: the stored quantity of every other id is what it
    was before the call. *)
Theorem cart_operations_frame productId other qty ls :
  other ≠ productId →
  persisted (snd (addToCart (num:=num) productId qty ls)) !! other
  = persisted ls !! other
  ∧ persisted (snd (setCartQuantity productId qty ls)) !! other
    = persisted ls !! other
  ∧ persisted (snd (removeFromCart productId ls)) !! other
    = persisted ls !! other.
Proof.
  intros Hne. repeat split.
  - destruct (decide (productId ∈ product_ids (num:=num))) as [Hin|Hout].
    + rewrite addToCart_known by done. cbn [snd].
      by rewrite persisted_write, lookup_insert_ne.
    + by rewrite addToCart_unknown.
  - rewrite setCartQuantity_run. cbn [snd]. rewrite persisted_write.
    case_bool_decide; [by rewrite lookup_delete_ne | by rewrite assign_other].
  - rewrite removeFromCart_run. cbn [snd].
    by rewrite persisted_write, lookup_delete_ne.
Qed.

(** X2.  Set quantity overwrites: for an id other than [__proto__], the
    mapping stored after it does not depend on an earlier set or add of
    the same id. *)
Theorem setCartQuantity_last_wins productId q1 q2 ls :
  productId ≠ js "__proto__" →
  persisted (snd (setCartQuantity productId q2
                    (snd (setCartQuantity productId q1 ls))))
  = persisted (snd (setCartQuantity productId q2 ls))
  ∧ persisted (snd (setCartQuantity productId q2
                      (snd (addToCart (num:=num) productId q1 ls))))
    = persisted (snd (setCartQuantity productId q2 ls)).
Proof.
  intros Hid. split.
  - rewrite !setCartQuantity_run. cbn [snd]. rewrite !persisted_write.
    rewrite !assign_insert by (by left).
    case_bool_decide as H1; case_bool_decide as H2;
      by rewrite ?delete_delete_eq, ?insert_delete_eq, ?delete_insert_eq,
                 ?insert_insert_eq.
  - destruct (decide (productId ∈ product_ids (num:=num))) as [Hin|Hout].
    + rewrite addToCart_known by done. rewrite !setCartQuantity_run. cbn [snd].
      rewrite !persisted_write, !assign_insert by (by left).
      case_bool_decide; by rewrite ?delete_insert_eq, ?insert_insert_eq.
    + by rewrite addToCart_unknown.
Qed.

(** X3.  Additions of two different catalog products commute: they leave
    the same mapping stored in either order. *)
Theorem addToCart_commutes p1 q1 p2 q2 ls :
  p1 ∈ product_ids (num:=num) → p2 ∈ product_ids (num:=num) → p1 ≠ p2 →
  persisted (snd (addToCart (num:=num) p2 q2
                    (snd (addToCart (num:=num) p1 q1 ls))))
  = persisted (snd (addToCart (num:=num) p1 q1
                      (snd (addToCart (num:=num) p2 q2 ls)))).
Proof.
  intros H1 H2 Hne. rewrite !addToCart_known by done. cbn [snd].
  rewrite !persisted_write. rewrite !lookup_insert_ne by done.
  by apply insert_insert_ne.
Qed.

Lemma getCart_pairs ls :
  (λ it, (id (product it), qty it)) <$> items (summary (num:=num)
                              (cart_line <$> map_to_list (persisted ls)))
  = map_to_list (persisted ls).
Proof.
  unfold summary. cbn [items]. rewrite <- list_fmap_compose.
  rewrite <- (list_fmap_id (map_to_list (persisted ls))) at 2.
  apply list_fmap_ext. intros i [pid q] _. cbn [compose].
  by rewrite cart_line_id.
Qed.

(** X4.  The priced cart is a read: it leaves storage as it is, and it
    has exactly one line for each stored entry, with the id and the
    quantity of the entry, and no two lines with the same id.  The order
    of the lines is left open. *)
Theorem getCart_lists_entries ls :
  ∃ v, getCart (num:=num) ls = (Ok v, ls)
    ∧ (λ it, (id (product it), qty it)) <$> items v
      ≡ₚ map_to_list (persisted ls)
    ∧ NoDup ((λ it, id (product it)) <$> items v)
    ∧ (∀ pid q, persisted ls !! pid = Some q
                ↔ ∃ it, it ∈ items v ∧ id (product it) = pid ∧ qty it = q).
Proof.
  eexists. split; [apply getCart_run|].
  split; [by rewrite getCart_pairs|]. split.
  - rewrite getCart_item_ids. apply NoDup_fst_map_to_list.
  - intros pid q. rewrite <- elem_of_map_to_list.
    pose proof (getCart_pairs ls) as Hp.
    set (v := summary _) in *. rewrite <- Hp.
    rewrite list_elem_of_fmap. split.
    + intros (it & E & Hin). injection E as E1 E2. by exists it.
    + intros (it & Hin & <- & <-). by exists it.
Qed.

(** X5.  After a checkout, whether it succeeded or not, the cart has no
    line, and another checkout fails with EmptyCart and changes
    nothing. *)
Theorem checkout_twice now1 now2 ls :
  let ls1 := snd (checkout now1 ls) in
  checkout now2 ls1 = (Throw EmptyCart, ls1)
  ∧ ∃ v, getCart (num:=num) ls1 = (Ok v, ls1) ∧ items v = [].
Proof.
  intros ls1.
  assert (persisted ls1 = ∅) as He.
  { subst ls1. destruct (decide (persisted ls = ∅)) as [He|Hne].
    - by rewrite (checkout_empty now1).
    - rewrite (checkout_nonempty now1) by done. apply persisted_write. }
  split; [by apply checkout_empty|].
  eexists. split; [apply getCart_run|]. by rewrite He, map_to_list_empty.
Qed.

(** X6.  Stored cart text that does not parse counts as an empty cart
    and stays in storage until the first write: checkout fails with
    EmptyCart, the priced cart has no line, and adding a catalog product
    replaces the text by a cart with that entry alone. *)
Theorem unreadable_cart_discarded raw ls :
  ls !! fh_cart = Some raw → JSON_text (A:=Cart) raw = None →
  (∀ now, checkout now ls = (Throw EmptyCart, ls))
  ∧ (∃ v, getCart (num:=num) ls = (Ok v, ls) ∧ items v = [])
  ∧ (∀ productId qty,
       productId ∈ product_ids (num:=num) →
       persisted (snd (addToCart (num:=num) productId qty ls))
       = {[ productId := units qty ]}).
Proof.
  intros E R. pose proof (persisted_rejected ls raw E R) as He.
  split; [intros now; by apply checkout_empty|]. split.
  - eexists. split; [apply getCart_run|].
    by rewrite He, map_to_list_empty.
  - intros productId qty Hin. rewrite addToCart_known by done. cbn [snd].
    rewrite persisted_write, He, lookup_empty. cbn [default].
    by rewrite plus_0_l.
Qed.
End CartStoreMore.

(** ** Binary64 against exact arithmetic *)

Section Binary64Summary.
Context {cart_codec : JSON Cart}.

(** X8.  In binary64, for stored quantities from 0 to 100, the summary
    shows the doubles nearest to the exact amounts: the subtotal is that
    of the whole-dollar sum, the tax that of 7 cents per dollar, and the
    total that of 1.07 per dollar plus the fee. *)
Theorem getCart_binary64_nearest_exact ls :
  (∀ pid q, persisted ls !! pid = Some q → (0 ≤ q ≤ 100)%Z) →
  let c := persisted ls in
  let dollar_sum := (45 * default 0 (c !! js "p1") + 70 * default 0 (c !! js "p2")
                  + 60 * default 0 (c !! js "p3") + 30 * default 0 (c !! js "p4"))%Z in
  let fee := if bool_decide (c = ∅) then 0%Z else 500%Z in
  ∃ v, getCart (num:=spec_float) ls = (Ok v, ls)
    ∧ subtotal v = Binary64.decimal (100 * dollar_sum) 2
    ∧ shipping v = Binary64.decimal fee 2
    ∧ tax v = Binary64.decimal (7 * dollar_sum) 2
    ∧ total v = Binary64.decimal (107 * dollar_sum + fee) 2.
Proof.
  intros Hq c dollar_sum fee.
  assert (dollar_sum = cart_dollars c) as ->
    by (symmetry; apply Binary64Facts.cart_dollars_closed).
  destruct (getCart_binary64 ls)
    as (v & Hrun & _ & _ & Hsub & Hship & _ & Htax & _ & Htot).
  { intros pid q Hl. specialize (Hq pid q Hl).
    change (10 ^ 11)%Z with 100000000000%Z. lia. }
  by exists v.
Qed.
End Binary64Summary.

(** ** Session: how the calls compose *)

Lemma storage_keys_distinct :
  fh_cart ≠ fh_token ∧ fh_cart ≠ fh_user ∧ fh_token ≠ fh_user.
Proof. repeat split; discriminate. Qed.

Section SessionMore.
Context {num : Type} {arith : Number num}.
Context {cart_codec : JSON Cart} {user_codec : JSON User}.

Lemma persisted_ext ls ls' :
  ls' !! fh_cart = ls !! fh_cart → persisted ls' = persisted ls.
Proof.
  intros E. unfold persisted, _readCart, try_catch, getItem, JSON_parse, mbind, M_bind.
  rewrite E. destruct (ls !! fh_cart) as [[|c text]|]; [done| |done].
  by destruct (JSON_text (c :: text)).
Qed.

Lemma getCurrentUser_ext ls ls' :
  ls' !! fh_user = ls !! fh_user →
  fst (getCurrentUser ls') = fst (getCurrentUser ls).
Proof.
  intros E. unfold getCurrentUser, try_catch, getItem, JSON_parse, mbind, M_bind.
  rewrite E. destruct (ls !! fh_user) as [raw|]; [|done].
  by destruct (JSON_text raw).
Qed.

Lemma cart_write_session text ls :
  fst (getCurrentUser (<[fh_cart := text]> ls)) = fst (getCurrentUser ls)
  ∧ <[fh_cart := text]> ls !! fh_token = ls !! fh_token.
Proof.
  destruct storage_keys_distinct as (Hct & Hcu & _). split.
  - apply getCurrentUser_ext. by apply lookup_insert_ne.
  - by apply lookup_insert_ne.
Qed.

Lemma login_storage email password now ls :
  snd (login email password now ls) !! fh_cart = ls !! fh_cart.
Proof.
  destruct storage_keys_distinct as (Hct & Hcu & _).
  destruct (decide (Forall (λ c, (c ≤ 255)%N) email)) as [Hl|Hl].
  - rewrite login_latin1 by done. cbn [snd].
    by rewrite !lookup_insert_ne.
  - by rewrite login_beyond_latin1.
Qed.

(** X9.  Cart and session do not interfere: no cart call changes the
    current user or the stored token, and neither login nor logout
    changes the stored cart. *)
Theorem cart_and_session_independent ls :
  (∀ productId qty,
     let ls' := snd (addToCart (num:=num) productId qty ls) in
     fst (getCurrentUser ls') = fst (getCurrentUser ls)
     ∧ ls' !! fh_token = ls !! fh_token)
  ∧ (∀ productId qty,
       let ls' := snd (setCartQuantity productId qty ls) in
       fst (getCurrentUser ls') = fst (getCurrentUser ls)
       ∧ ls' !! fh_token = ls !! fh_token)
  ∧ (∀ productId,
       let ls' := snd (removeFromCart productId ls) in
       fst (getCurrentUser ls') = fst (getCurrentUser ls)
       ∧ ls' !! fh_token = ls !! fh_token)
  ∧ (∀ now,
       let ls' := snd (checkout now ls) in
       fst (getCurrentUser ls') = fst (getCurrentUser ls)
       ∧ ls' !! fh_token = ls !! fh_token)
  ∧ (∀ email password now,
       persisted (snd (login email password now ls)) = persisted ls)
  ∧ persisted (snd (logout ls)) = persisted ls.
Proof.
  destruct storage_keys_distinct as (Hct & Hcu & _).
  split; [|split; [|split; [|split; [|split]]]].
  - intros productId qty ls'. subst ls'.
    destruct (decide (productId ∈ product_ids (num:=num))) as [Hin|Hout].
    + rewrite addToCart_known by done. apply cart_write_session.
    + by rewrite addToCart_unknown.
  - intros productId qty ls'. subst ls'. rewrite setCartQuantity_run.
    apply cart_write_session.
  - intros productId ls'. subst ls'. rewrite removeFromCart_run.
    apply cart_write_session.
  - intros now ls'. subst ls'.
    destruct (decide (persisted ls = ∅)) as [He|Hne].
    + by rewrite checkout_empty.
    + rewrite checkout_nonempty by done. apply cart_write_session.
  - intros email password now. apply persisted_ext, login_storage.
  - apply persisted_ext. rewrite logout_run. cbn [snd].
    by rewrite !lookup_delete_ne.
Qed.

(** X10.  On a storage without session, login followed by logout gives
    back the storage exactly, whether the login succeeded or not. *)
Theorem login_logout_round_trip email password now ls :
  ls !! fh_token = None → ls !! fh_user = None →
  snd (logout (snd (login email password now ls))) = ls.
Proof.
  intros Ht Hu. destruct storage_keys_distinct as (_ & _ & Htu).
  rewrite logout_run. cbn [snd]. apply map_eq. intros k.
  destruct (decide (k = fh_user)) as [->|Hku]; [by rewrite lookup_delete_eq|].
  rewrite lookup_delete_ne by done.
  destruct (decide (k = fh_token)) as [->|Hkt]; [by rewrite lookup_delete_eq|].
  rewrite lookup_delete_ne by done.
  destruct (decide (Forall (λ c, (c ≤ 255)%N) email)) as [Hl|Hl].
  - rewrite login_latin1 by done. cbn [snd]. by rewrite !lookup_insert_ne.
  - by rewrite login_beyond_latin1.
Qed.

(** X11.  A login that succeeds replaces the session: storage after it
    does not depend on an earlier login. *)
Theorem login_replaces_session email1 password1 now1 email2 password2 now2 ls :
  latin1 email2 →
  snd (login email2 password2 now2 (snd (login email1 password1 now1 ls)))
  = snd (login email2 password2 now2 ls).
Proof.
  intros H2. destruct storage_keys_distinct as (_ & _ & Htu).
  destruct (decide (Forall (λ c, (c ≤ 255)%N) email1)) as [H1|H1].
  - rewrite (login_latin1 email1) by done.
    rewrite !(login_latin1 email2) by done. cbn [snd].
    apply map_eq. intros k.
    destruct (decide (k = fh_user)) as [->|Hku]; [by rewrite !lookup_insert_eq|].
    rewrite !(lookup_insert_ne _ fh_user) by done.
    destruct (decide (k = fh_token)) as [->|Hkt]; [by rewrite !lookup_insert_eq|].
    by rewrite !lookup_insert_ne.
  - by rewrite (login_beyond_latin1 email1).
Qed.

(** X12.  Login succeeds exactly for an email whose code units are all
    at most 0xFF.  It then answers with that email, which is the current
    user afterwards, and with the token it stored; for any other email it
    throws and stores nothing.  The password has no part in the
    outcome. *)
Theorem login_succeeds_iff_latin1 email password now ls :
  ((latin1 email
    ∧ ∃ r ls', login email password now ls = (Ok r, ls')
        ∧ user r = {| email := email |}
        ∧ getCurrentUser ls' = (Ok (Some {| email := email |}), ls')
        ∧ ls' !! fh_token = Some (token r))
   ∨ (¬ latin1 email
      ∧ login email password now ls = (Throw InvalidCharacterError, ls)))
  ∧ (∀ password', login email password' now ls = login email password now ls).
Proof.
  destruct storage_keys_distinct as (_ & _ & Htu).
  split; [|done].
  destruct (decide (Forall (λ c, (c ≤ 255)%N) email)) as [Hl|Hl].
  - left. split; [done|]. eexists _, _.
    split; [by apply login_latin1|]. split; [done|]. split.
    + apply getCurrentUser_stored, lookup_insert_eq.
    + cbn [token]. rewrite lookup_insert_ne by done. apply lookup_insert_eq.
  - right. split; [done|]. by apply login_beyond_latin1.
Qed.
End SessionMore.

(** ** Reading back a printed quantity *)

Lemma is_digit_no_space c : is_digit c = true → is_space c = false.
Proof.
  unfold is_digit, is_space. intros H. apply andb_prop in H as [H1 H2].
  apply N.leb_le in H1, H2. apply bool_decide_eq_false. intros Hin.
  repeat (apply elem_of_cons in Hin as [->|Hin]; [lia|]).
  by apply elem_of_nil in Hin.
Qed.

Lemma pretty_N_char_code d :
  (d < 10)%N → Ascii.N_of_ascii (pretty_N_char d) = (48 + d)%N.
Proof.
  intros H.
  assert (d = 0 ∨ d = 1 ∨ d = 2 ∨ d = 3 ∨ d = 4 ∨ d = 5 ∨ d = 6 ∨ d = 7
          ∨ d = 8 ∨ d = 9)%N as Hd by lia.
  repeat (destruct Hd as [->|Hd]; [done|]). by subst d.
Qed.

Lemma js_String a s : js (String a s) = Ascii.N_of_ascii a :: js s.
Proof. done. Qed.

(** The digits printed for [x] in front of [s] read as [x] appended to
    what was read before them. *)
Lemma read_digits_pretty x :
  ∀ s, ∃ k : nat, ∀ acc,
    read_digits acc (js (pretty_N_go x s))
    = read_digits (acc * 10 ^ Z.of_nat k + Z.of_N x)%Z (js s).
Proof.
  induction (N.lt_wf_0 x) as [x _ IH]. intros s.
  assert (x = 0 ∨ 0 < x)%N as [->|Hx] by lia.
  - exists 0%nat. intros acc. rewrite pretty_N_go_0. f_equal.
    cbn. lia.
  - rewrite pretty_N_go_step by done.
    destruct (IH (x `div` 10)%N (N.div_lt x 10 Hx eq_refl)
                (String (pretty_N_char (x `mod` 10)) s)) as [k Hk].
    exists (S k). intros acc. rewrite Hk, js_String.
    pose proof (N.mod_lt x 10 ltac:(done)) as Hm.
    rewrite pretty_N_char_code by done. cbn [read_digits].
    assert (is_digit (48 + x `mod` 10) = true) as ->.
    { unfold is_digit. apply andb_true_intro.
      split; apply N.leb_le; [apply N.le_add_r|].
      change 57%N with (48 + 9)%N. apply N.add_le_mono_l. by apply N.lt_succ_r. }
    f_equal. rewrite Nat2Z.inj_succ, Z.pow_succ_r by lia.
    pose proof (N.div_mod x 10 ltac:(done)) as Hdm.
    rewrite N2Z.inj_div. rewrite N2Z.inj_add.
    assert (Z.of_N x = 10 * (Z.of_N x / 10) + Z.of_N (x `mod` 10))%Z as Hz.
    { rewrite N2Z.inj_mod. apply Z.div_mod. lia. }
    change (Z.of_N 10) with 10%Z. change (Z.of_N 48) with 48%Z.
    rewrite Hz at 2. clear.
    generalize (10 ^ Z.of_nat k)%Z (Z.of_N x `div` 10)%Z (Z.of_N (x `mod` 10)).
    intros P q d. ring.
Qed.

Lemma pretty_N_go_head x s :
  (0 < x)%N →
  ∃ c rest, js (pretty_N_go x s) = c :: rest ∧ is_digit c = true.
Proof.
  revert s. induction (N.lt_wf_0 x) as [x _ IH]. intros s Hx.
  rewrite pretty_N_go_step by done.
  destruct (N.eq_0_gt_0_cases (x `div` 10)) as [E|Hd].
  - rewrite E, pretty_N_go_0, js_String. eexists _, _. split; [done|].
    pose proof (N.mod_lt x 10 ltac:(done)) as Hm.
    rewrite pretty_N_char_code by done.
    unfold is_digit. apply andb_true_intro.
    split; apply N.leb_le; [apply N.le_add_r|].
    change 57%N with (48 + 9)%N. apply N.add_le_mono_l. by apply N.lt_succ_r.
  - apply IH; [by apply N.div_lt | done].
Qed.

Lemma read_digits_positive (p : positive) :
  ∃ c rest, js (pretty (N.pos p)) = c :: rest ∧ is_digit c = true
            ∧ (read_digits 0 (c :: rest)).1 = Z.pos p.
Proof.
  unfold pretty, pretty_N. rewrite decide_False by done.
  destruct (pretty_N_go_head (N.pos p) "" ltac:(done)) as (c & rest & E & Hc).
  exists c, rest. split; [done|]. split; [done|].
  destruct (read_digits_pretty (N.pos p) "") as [k Hk].
  rewrite <- E, Hk. cbn [js String.list_ascii_of_string fmap list_fmap read_digits fst].
  done.
Qed.

Lemma decimal_integer_String_of_Z n : decimal_integer (String_of_Z n) = Some n.
Proof.
  unfold String_of_Z, pretty, pretty_Z. destruct n as [|p|p].
  - done.
  - change (pretty p) with (pretty (N.pos p)).
    destruct (read_digits_positive p) as (c & rest & -> & Hc & Hv).
    unfold decimal_integer. cbn [trim_start]. rewrite (is_digit_no_space c Hc).
    unfold is_digit in Hc. apply andb_prop in Hc as [H1 H2].
    apply N.leb_le in H1, H2.
    assert (is_digit c = true) as Hc'
      by (unfold is_digit; apply andb_true_intro; split; apply N.leb_le; lia).
    destruct (decide (c = 45%N)) as [->|H45]; [lia|].
    destruct (decide (c = 43%N)) as [->|H43]; [lia|].
    assert (match c :: rest with
            | 45%N :: r => (true, r)
            | 43%N :: r => (false, r)
            | _ => (false, c :: rest)
            end = (false, c :: rest)) as ->.
    { destruct c as [|q]; [done|].
      do 6 (destruct q as [q|q|]; try done). }
    by rewrite Hc', Hv.
  - change (pretty p) with (pretty (N.pos p)).
    destruct (read_digits_positive p) as (c & rest & E & Hc & Hv).
    assert (js ("-" +:+ pretty (N.pos p)) = 45%N :: c :: rest) as ->
      by (by rewrite <- E).
    unfold decimal_integer. cbn [trim_start].
    assert (is_space 45 = false) as -> by done.
    rewrite Hc, Hv. done.
Qed.

(** ** Tokens *)

Lemma b64_char_table :
  Forall (λ i, Forall (λ j, b64_char i = b64_char j → i = j)
                 (N.of_nat <$> seq 0 64)
               ∧ b64_char i ≠ 61%N)
         (N.of_nat <$> seq 0 64).
Proof. apply (bool_decide_unpack _). by vm_compute. Qed.

Lemma below_64 i : (i < 64)%N → i ∈ N.of_nat <$> seq 0 64.
Proof.
  intros H. apply list_elem_of_fmap. exists (N.to_nat i).
  split; [by rewrite N2Nat.id|]. apply elem_of_seq. lia.
Qed.

Lemma b64_char_inj i j :
  (i < 64)%N → (j < 64)%N → b64_char i = b64_char j → i = j.
Proof.
  intros Hi Hj. pose proof b64_char_table as T. rewrite Forall_forall in T.
  destruct (T i (below_64 i Hi)) as [T' _]. rewrite Forall_forall in T'.
  by apply T', below_64.
Qed.

Lemma b64_char_no_pad i : (i < 64)%N → b64_char i ≠ 61%N.
Proof.
  intros Hi. pose proof b64_char_table as T. rewrite Forall_forall in T.
  by destruct (T i (below_64 i Hi)) as [_ T'].
Qed.

Lemma byte_parts a :
  (a ≤ 255)%N →
  (a / 4 < 64 ∧ a mod 4 < 4 ∧ a / 16 < 16 ∧ a mod 16 < 16
   ∧ a / 64 < 4 ∧ a mod 64 < 64)%N.
Proof.
  intros Ha.
  pose proof (N.mod_lt a 4 ltac:(done)). pose proof (N.mod_lt a 16 ltac:(done)).
  pose proof (N.mod_lt a 64 ltac:(done)).
  assert (a / 4 < 64)%N by (apply N.Div0.div_lt_upper_bound; lia).
  assert (a / 16 < 16)%N by (apply N.Div0.div_lt_upper_bound; lia).
  assert (a / 64 < 4)%N by (apply N.Div0.div_lt_upper_bound; lia).
  done.
Qed.

Lemma div_mod_inj a a' k :
  (k ≠ 0 → a / k = a' / k → a mod k = a' mod k → a = a')%N.
Proof.
  intros Hk E1 E2. rewrite (N.div_mod a k), (N.div_mod a' k) by done.
  by rewrite E1, E2.
Qed.

Ltac pad_clash :=
  match goal with
  | H : b64_char _ = 61%N |- _ => apply b64_char_no_pad in H; [done | lia]
  | H : 61%N = b64_char _ |- _ =>
      symmetry in H; apply b64_char_no_pad in H; [done | lia]
  end.

Ltac sextets :=
  repeat match goal with
         | H : b64_char _ = b64_char _ |- _ => apply b64_char_inj in H; [|lia..]
         end.

Ltac name_parts :=
  repeat match goal with
         | H : context [(?a / ?k)%N] |- _ =>
             let q := fresh "q" in set (q := (a / k)%N) in *; clearbody q
         | H : context [(?a mod ?k)%N] |- _ =>
             let r := fresh "r" in set (r := (a mod k)%N) in *; clearbody r
         | |- context [(?a / ?k)%N] =>
             let q := fresh "q" in set (q := (a / k)%N) in *; clearbody q
         | |- context [(?a mod ?k)%N] =>
             let r := fresh "r" in set (r := (a mod k)%N) in *; clearbody r
         end.

Lemma base64_inj l1 l2 :
  latin1 l1 → latin1 l2 → base64 l1 = base64 l2 → l1 = l2.
Proof.
  revert l2. induction l1 as [l1 IH] using (induction_ltof1 _ (@length N)).
  unfold ltof in IH. intros l2 H1 H2. unfold latin1 in H1, H2.
  destruct l1 as [|a1 [|b1 [|c1 r1]]], l2 as [|a2 [|b2 [|c2 r2]]];
    cbn [base64]; intros E; try discriminate E; try done;
    repeat match goal with
           | H : Forall _ (_ :: _) |- _ =>
               let Hb := fresh "Hb" in
               apply Forall_cons in H as [Hb H];
               apply byte_parts in Hb as (? & ? & ? & ? & ? & ?)
           end;
    injection E; clear E; intros; try pad_clash; sextets.
  - f_equal. apply (div_mod_inj _ _ 4); [done | done |]. name_parts. lia.
  - assert (a1 mod 4 = a2 mod 4 ∧ b1 / 16 = b2 / 16 ∧ b1 mod 16 = b2 mod 16)%N
      as (Ea & Eb & Eb') by (name_parts; lia).
    f_equal; [by apply (div_mod_inj _ _ 4)|].
    f_equal. by apply (div_mod_inj _ _ 16).
  - assert (a1 mod 4 = a2 mod 4 ∧ b1 / 16 = b2 / 16 ∧ b1 mod 16 = b2 mod 16
            ∧ c1 / 64 = c2 / 64)%N
      as (Ea & Eb & Eb' & Ec) by (name_parts; lia).
    f_equal; [by apply (div_mod_inj _ _ 4)|].
    f_equal; [by apply (div_mod_inj _ _ 16)|].
    f_equal; [by apply (div_mod_inj _ _ 64)|].
    apply IH; [cbn [length]; lia | done | done | done].
Qed.

Lemma colon_free_go x s : 58%N ∉ js s → 58%N ∉ js (pretty_N_go x s).
Proof.
  revert s. induction (N.lt_wf_0 x) as [x _ IH]. intros s Hs.
  destruct (N.eq_0_gt_0_cases x) as [->|Hx]; [by rewrite pretty_N_go_0|].
  rewrite pretty_N_go_step by done. apply IH; [by apply N.div_lt|].
  rewrite js_String, pretty_N_char_code by (by apply N.mod_lt).
  pose proof (N.mod_lt x 10 ltac:(done)) as Hm.
  apply not_elem_of_cons. split; [|done].
  set (d := (x `mod` 10)%N) in *. clearbody d. lia.
Qed.

Lemma colon_free_String_of_Z n : 58%N ∉ String_of_Z n.
Proof.
  unfold String_of_Z, pretty, pretty_Z. destruct n as [|p|p].
  - apply (bool_decide_unpack _). by vm_compute.
  - change (pretty p) with (pretty (N.pos p)). unfold pretty, pretty_N.
    rewrite decide_False by done. apply colon_free_go, not_elem_of_nil.
  - change (pretty p) with (pretty (N.pos p)). unfold pretty, pretty_N.
    rewrite decide_False by done.
    change (js ("-" +:+ pretty_N_go (N.pos p) ""))
      with (45%N :: js (pretty_N_go (N.pos p) "")).
    apply not_elem_of_cons. split; [done|].
    apply colon_free_go, not_elem_of_nil.
Qed.

Lemma split_last_colon (e1 e2 s1 s2 : jsstring) :
  58%N ∉ s1 → 58%N ∉ s2 →
  e1 ++ 58%N :: s1 = e2 ++ 58%N :: s2 → e1 = e2 ∧ s1 = s2.
Proof.
  intros H1 H2. revert e2. induction e1 as [|x e1 IH]; intros [|y e2] E;
    cbn [app] in E.
  - by injection E as ->.
  - injection E as _ E. exfalso. apply H1. rewrite E.
    apply elem_of_app. right. apply elem_of_cons. by left.
  - injection E as _ E. exfalso. apply H2. rewrite <- E.
    apply elem_of_app. right. apply elem_of_cons. by left.
  - injection E as -> E. by destruct (IH _ E) as [-> ->].
Qed.

Section Tokens.
Context {user_codec : JSON User}.

Lemma login_Ok_inv email password now ls r ls' :
  login email password now ls = (Ok r, ls') →
  latin1 (email ++ js ":" ++ String_of_Z now)
  ∧ token r = js "fake-token-" ++ base64 (email ++ js ":" ++ String_of_Z now).
Proof.
  unfold login, btoa. destruct (forallb _ _) eqn:E; [|done].
  intros [= <- _]. split; [|done].
  apply Forall_forall. intros c Hc. rewrite forallb_forall in E.
  apply N.leb_le, E. by apply list_elem_of_In.
Qed.

(** X13.  The token tells the login: two logins that succeed with the
    same token were made with the same email at the same clock
    reading. *)
Theorem login_token_identifies email1 password1 now1 ls1 r1 ls1'
    email2 password2 now2 ls2 r2 ls2' :
  login email1 password1 now1 ls1 = (Ok r1, ls1') →
  login email2 password2 now2 ls2 = (Ok r2, ls2') →
  token r1 = token r2 →
  email1 = email2 ∧ now1 = now2.
Proof.
  intros E1 E2 Et.
  apply login_Ok_inv in E1 as [L1 T1]. apply login_Ok_inv in E2 as [L2 T2].
  rewrite T1, T2 in Et. apply app_inv_head, base64_inj in Et; [|done..].
  apply split_last_colon in Et as [-> En]; [|apply colon_free_String_of_Z..].
  split; [done|]. by apply String_of_Z_inj in En.
Qed.
End Tokens.

(** ** The page *)

(** *** Counting the cart *)

Lemma cart_count_insert (c : Cart) k v :
  cart_count (<[k := v]> c) = (cart_count c - default 0 (c !! k) + v)%Z.
Proof.
  unfold cart_count.
  assert (∀ m : Cart, m !! k = None → ∀ x,
            sumZ (map_to_list (<[k := x]> m)).*2 = (x + sumZ (map_to_list m).*2)%Z)
    as Hfresh.
  { intros m Hm x.
    rewrite (Binary64Facts.sumZ_perm _ ((k, x) :: map_to_list m).*2); [done|].
    apply fmap_Permutation. by apply map_to_list_insert. }
  destruct (c !! k) as [q|] eqn:E; cbn [default].
  - assert (sumZ (map_to_list c).*2 = (q + sumZ (map_to_list (delete k c)).*2)%Z)
      as ->.
    { rewrite <- (insert_delete_id c k q E) at 1. apply Hfresh, lookup_delete_eq. }
    rewrite <- (insert_delete_eq c k v).
    rewrite Hfresh by apply lookup_delete_eq. unfold Datatypes.id. lia.
  - rewrite Hfresh by done. lia.
Qed.

Lemma cart_count_nonneg (c : Cart) :
  (∀ k q, c !! k = Some q → 0 ≤ q)%Z → (0 ≤ cart_count c)%Z.
Proof.
  intros Hc. apply Binary64Facts.sumZ_nonneg, Forall_fmap, Forall_forall.
  intros [k q] Hin. apply elem_of_map_to_list in Hin. by eapply Hc.
Qed.

Lemma cart_count_entry (c : Cart) k q :
  (∀ k q, c !! k = Some q → 0 ≤ q)%Z → c !! k = Some q → (q ≤ cart_count c)%Z.
Proof.
  intros Hc E. pose proof (cart_count_insert (delete k c) k q) as Hi.
  rewrite insert_delete_id, lookup_delete_eq in Hi by done. cbn [default] in Hi.
  assert (0 ≤ cart_count (delete k c))%Z; [|lia].
  apply cart_count_nonneg. intros k' q' E'.
  apply lookup_delete_Some in E' as [_ E']. by eapply Hc.
Qed.

Lemma foldl_plus_exact {num} (lines : list (CartItem num)) (s : Z) :
  (0 ≤ s)%Z → Forall (λ it, 0 ≤ qty it)%Z lines →
  (s + sumZ (qty <$> lines) ≤ 2 ^ 53)%Z →
  foldl (λ s it, plus s (qty it)) s lines = (s + sumZ (qty <$> lines))%Z.
Proof.
  intros Hs Hl. revert s Hs.
  induction Hl as [|it lines Hit Hl IH]; intros s Hs Hsum.
  - cbn [foldl fmap list_fmap sumZ foldr]. lia.
  - rewrite fmap_cons, Binary64Facts.sumZ_cons in *. cbn [foldl].
    assert (0 ≤ sumZ (qty <$> lines))%Z as Hrest
      by (apply Binary64Facts.sumZ_nonneg, Forall_fmap; exact Hl).
    rewrite plus_small by lia. rewrite IH by lia. lia.
Qed.

Section PageFacts.
Context {num : Type} {arith : Number num}.
Context {cart_codec : JSON Cart} {user_codec : JSON User}.
Variables host_message host_string : exn → jsstring.

Lemma totalItems_stored (c : Cart) :
  (∀ k q, c !! k = Some q → 0 ≤ q)%Z → (cart_count c ≤ 2 ^ 53)%Z →
  totalItems (cart_line (num:=num) <$> map_to_list c) = cart_count c.
Proof.
  intros Hc Hsum. unfold totalItems, cart_count in *.
  assert (qty <$> (cart_line (num:=num) <$> map_to_list c) = (map_to_list c).*2)
    as Hq.
  { rewrite <- list_fmap_compose. apply list_fmap_ext. by intros i [pid q] _. }
  rewrite foldl_plus_exact; rewrite ?Hq; [lia | done | | lia].
  apply Forall_fmap, Forall_forall. intros [k q] Hin.
  apply elem_of_map_to_list in Hin. cbn. by eapply Hc.
Qed.

Lemma renderCartSummary_run ls :
  renderCartSummary (num:=num) ls
  = (Ok (cart_count_text
           (totalItems (cart_line (num:=num) <$> map_to_list (persisted ls)))),
     ls).
Proof.
  unfold renderCartSummary. by rewrite (bind_Ok _ _ _ _ _ (getCart_run ls)).
Qed.

(** X14.  The cart badge reads the cart without writing and says [item]
    for the count 1 and [items] for every other count; while no stored
    quantity is negative and their sum is at most 2^53, so that the
    doubles add up exactly, the count is the sum of the stored quantities
    of all entries. *)
Theorem renderCartSummary_counts ls :
  (∀ k q, persisted ls !! k = Some q → 0 ≤ q)%Z →
  (cart_count (persisted ls) ≤ 2 ^ 53)%Z →
  let n := cart_count (persisted ls) in
  renderCartSummary (num:=num) ls
  = (Ok (js "Cart: " ++ String_of_Z n ++ js " item"
         ++ (if bool_decide (n = 1%Z) then [] else js "s")), ls).
Proof.
  intros Hc Hsum n. subst n.
  rewrite renderCartSummary_run, totalItems_stored by done.
  unfold cart_count_text.
  by destruct (decide (cart_count (persisted ls) = 1%Z)) as [->|Hne];
    [|rewrite bool_decide_eq_true_2, bool_decide_eq_false_2].
Qed.

Lemma units_double_1 : units (double 1) = 1%Z.
Proof. reflexivity. Qed.

Lemma onAddToCartClick_known pid ls :
  pid ∈ product_ids (num:=num) →
  onAddToCartClick (num:=num) host_message host_string pid ls
  = (Ok (js "Item added to cart (fake)."),
     snd (addToCart (num:=num) pid (double 1) ls)).
Proof.
  intros Hin. unfold onAddToCartClick, try_catch, mbind, M_bind.
  by rewrite addToCart_known.
Qed.

Lemma onAddToCartClick_unknown pid ls :
  pid ∉ product_ids (num:=num) →
  onAddToCartClick (num:=num) host_message host_string pid ls
  = (Ok (js "Error: Product not found"), ls).
Proof.
  intros Hout. unfold onAddToCartClick, try_catch, mbind, M_bind.
  by rewrite addToCart_unknown.
Qed.

(** X15.  A click on a generated add-to-cart button never throws.  For a
    catalog id it says that the item was added and stores the double sum
    of the previous quantity and 1; while no stored quantity is negative
    and their sum is below 2^53, that is one unit more, and the badge
    rendered next counts one more.  For any other id it reports
    [Product not found] and leaves storage as it was. *)
Theorem onAddToCartClick_outcome pid ls :
  let click := onAddToCartClick (num:=num) host_message host_string pid ls in
  let previous := default 0%Z (persisted ls !! pid) in
  (pid ∈ product_ids (num:=num)
   ∧ fst click = Ok (js "Item added to cart (fake).")
   ∧ persisted (snd click) = <[pid := plus previous 1]> (persisted ls)
   ∧ ((∀ k q, persisted ls !! k = Some q → 0 ≤ q)%Z →
      (cart_count (persisted ls) < 2 ^ 53)%Z →
      persisted (snd click) = <[pid := (previous + 1)%Z]> (persisted ls)
      ∧ fst (renderCartSummary (num:=num) (snd click))
        = Ok (cart_count_text (cart_count (persisted ls) + 1))))
  ∨ ((pid ∉ product_ids (num:=num))
     ∧ click = (Ok (js "Error: Product not found"), ls)).
Proof.
  intros click previous. subst click.
  destruct (decide (pid ∈ product_ids (num:=num))) as [Hin|Hout].
  - left. rewrite onAddToCartClick_known by done.
    rewrite addToCart_known by done. cbn [fst snd].
    rewrite persisted_write, units_double_1. fold previous.
    split; [done|]. split; [done|]. split; [done|]. intros Hc Hsum.
    assert (0 ≤ previous ≤ cart_count (persisted ls))%Z as Hp.
    { subst previous. destruct (persisted ls !! pid) as [q|] eqn:E; cbn [default].
      - unfold Datatypes.id. split; [by eapply Hc | by eapply cart_count_entry].
      - split; [done | by apply cart_count_nonneg]. }
    rewrite plus_small by lia. split; [done|].
    rewrite renderCartSummary_run, persisted_write. cbn [fst].
    rewrite totalItems_stored.
    + rewrite cart_count_insert. fold previous. do 2 f_equal. lia.
    + intros k q E. apply lookup_insert_Some in E as [[_ <-]|[_ E]]; [lia|].
      by eapply Hc.
    + rewrite cart_count_insert. fold previous. lia.
  - right. split; [done|]. by apply onAddToCartClick_unknown.
Qed.

Lemma find_by_name_Some heading (prod : Product num) :
  find_by_name heading = Some prod →
  prod ∈ MOCK_PRODUCTS ∧ heading = Some (name prod).
Proof.
  intros E. apply find_some in E as [Hin E].
  apply bool_decide_eq_true in E. by apply list_elem_of_In in Hin.
Qed.

Lemma find_by_name_None heading (prod : Product num) :
  find_by_name (num:=num) heading = None →
  prod ∈ MOCK_PRODUCTS → heading ≠ Some (name prod).
Proof.
  intros E Hin ->. apply list_elem_of_In in Hin.
  pose proof (find_none _ _ E _ Hin) as Hf. cbn beta in Hf.
  by rewrite bool_decide_eq_true_2 in Hf.
Qed.

(** X16.  A click on a static card button never throws.  It recognises
    the card by the trimmed text of its heading: when that is the name of
    a catalog product it says that the product was added and stores the
    double sum of the previous quantity and 1, one unit more while the
    previous quantity is below 2^53 in magnitude; otherwise, and when the
    card has no heading, it reports that the product is not recognised
    and leaves storage as it was. *)
Theorem onStaticAddClick_outcome heading ls :
  let click := onStaticAddClick (num:=num) host_message heading ls in
  (∃ prod, prod ∈ MOCK_PRODUCTS (num:=num)
     ∧ trim <$> heading = Some (name prod)
     ∧ fst click = Ok (name prod ++ js " added to cart (fake).")
     ∧ let previous := default 0%Z (persisted ls !! id prod) in
       persisted (snd click) = <[id prod := plus previous 1]> (persisted ls)
       ∧ ((Z.abs previous < 2 ^ 53)%Z → plus previous 1 = (previous + 1)%Z))
  ∨ ((∀ prod, prod ∈ MOCK_PRODUCTS (num:=num) → trim <$> heading ≠ Some (name prod))
     ∧ click = (Ok (js "Product not recognized for fake cart."), ls)).
Proof.
  intros click. subst click. unfold onStaticAddClick.
  destruct (find_by_name (trim <$> heading)) as [prod|] eqn:E.
  - left. apply find_by_name_Some in E as [Hin E]. exists prod.
    assert (id prod ∈ product_ids (num:=num)) as Hid
      by (apply list_elem_of_fmap; by exists prod).
    unfold try_catch, mbind, M_bind. rewrite addToCart_known by done.
    unfold mret, M_ret. cbn [fst snd]. rewrite persisted_write, units_double_1.
    split; [done|]. split; [done|]. split; [done|]. split; [done|].
    intros Hp. apply plus_small. lia.
  - right. split; [|done]. intros prod Hin. by apply find_by_name_None.
Qed.

Lemma asked_quantity_positive text : (1 ≤ asked_quantity text)%Z.
Proof.
  unfold asked_quantity. case_bool_decide as H; [by rewrite units_double_1 | lia].
Qed.

Lemma asked_quantity_exact text n :
  decimal_integer text = Some n → (Z.abs n ≤ 2 ^ 53)%Z →
  units (asked_quantity text) = Z.max 1 n.
Proof.
  intros E Hn. unfold asked_quantity, parseInt10. rewrite E. cbn [fmap option_fmap option_map].
  rewrite (double_small n Hn).
  repeat case_bool_decide; rewrite ?units_double_1, ?double_small in *; lia.
Qed.

Lemma asked_quantity_double text n :
  decimal_integer text = Some n → finite (round53 n) = true →
  units (asked_quantity text) = Z.max 1 (round53 n).
Proof.
  intros E F. unfold asked_quantity, parseInt10. rewrite E.
  cbn [fmap option_fmap option_map].
  pose proof (double_units n F) as Hd.
  repeat case_bool_decide; rewrite ?units_double_1 in *; lia.
Qed.

Lemma asked_quantity_NaN text :
  decimal_integer text = None → units (asked_quantity text) = 1%Z.
Proof.
  intros E. unfold asked_quantity, parseInt10. rewrite E.
  cbn [fmap option_fmap option_map]. by rewrite bool_decide_eq_false_2.
Qed.

(** X17.  Whatever text the quantity field holds, as long as the
    integer it starts with has a finite double, a change of it never
    removes the line: it sets the quantity to one of at least 1, which
    is the double nearest to that integer when that is 1 or more, the
    integer itself up to 2^53, and is 1 for a smaller integer and for
    text that starts with none.  The line is stored for every id other
    than [__proto__]. *)
Theorem onQuantityChange_at_least_one pid text ls :
  in_range text →
  let q := asked_quantity text in
  (1 ≤ q)%Z
  ∧ onQuantityChange pid text ls = setCartQuantity pid q ls
  ∧ (∀ n, decimal_integer text = Some n → units q = Z.max 1 (round53 n))
  ∧ (∀ n, decimal_integer text = Some n → (Z.abs n ≤ 2 ^ 53)%Z →
          units q = Z.max 1 n)
  ∧ (decimal_integer text = None → units q = 1%Z)
  ∧ (pid ≠ js "__proto__" ∨ is_Some (persisted ls !! pid) →
     persisted (snd (onQuantityChange pid text ls))
     = <[pid := units q]> (persisted ls)).
Proof.
  intros Hr q. subst q. pose proof (asked_quantity_positive text) as Hq.
  split; [done|]. split; [done|].
  split; [intros n E; apply asked_quantity_double; [done | by apply Hr]|].
  split; [apply asked_quantity_exact|]. split; [apply asked_quantity_NaN|].
  intros Hid. unfold onQuantityChange. rewrite setCartQuantity_run. cbn [snd].
  rewrite persisted_write, bool_decide_eq_false_2 by lia.
  by apply assign_insert.
Qed.

(** X18.  The quantity that the cart page prints into the field reads
    back as itself: a change event on the untouched field of a line with
    a quantity of 1 or more leaves the stored cart as it is, and one on a
    line with a smaller quantity sets it to 1.  The quantity is taken in
    the range where a double holds every integer, in which [String]
    prints all its digits. *)
Theorem quantity_field_round_trip pid n ls :
  (- 2 ^ 53 < n < 2 ^ 53)%Z → persisted ls !! pid = Some n →
  units (asked_quantity (String_of_Z n)) = Z.max 1 n
  ∧ persisted (snd (onQuantityChange pid (String_of_Z n) ls))
    = if bool_decide (1 ≤ n)%Z then persisted ls
      else <[pid := 1%Z]> (persisted ls).
Proof.
  intros Hb Hn.
  assert (units (asked_quantity (String_of_Z n)) = Z.max 1 n) as E
    by (apply asked_quantity_exact; [apply decimal_integer_String_of_Z | lia]).
  split; [done|]. unfold onQuantityChange. rewrite setCartQuantity_run.
  cbn [snd]. rewrite persisted_write, bool_decide_eq_false_2
    by (pose proof (asked_quantity_positive (String_of_Z n)); lia).
  rewrite assign_insert by (right; by rewrite Hn). rewrite E.
  case_bool_decide.
  - rewrite Z.max_r by lia. by apply insert_id.
  - by rewrite Z.max_l by lia.
Qed.

Lemma message_or_string_Error message :
  message ≠ [] →
  message_or_string host_message host_string (Error message) = message.
Proof. intros Hm. unfold message_or_string. cbn [message_of]. by destruct message. Qed.

(** X19.  Submitting the checkout form never throws.  With a field that
    is blank after trimming it asks for the fields and leaves storage as
    it was; with all four filled it reports [Cart is empty] on a stored
    cart without entries, and otherwise empties the cart and shows the
    order id of the clock reading.  The four fields are stored
    nowhere. *)
Theorem onCheckoutSubmit_outcome name_field email_field address_field card_field
    now ls :
  onCheckoutSubmit host_message host_string
    name_field email_field address_field card_field now ls
  = if blank (trim name_field) || blank (trim email_field)
       || blank (trim address_field) || blank (trim card_field)
    then (Ok (js "Please fill all fields (fake)."), ls)
    else if bool_decide (persisted ls = ∅)
    then (Ok (js "Checkout failed: Cart is empty"), ls)
    else (Ok (js "Order placed! Order ID: ORD-" ++ String_of_Z now ++ js " (fake)."),
          <[fh_cart := JSON_stringify (∅ : Cart)]> ls).
Proof.
  unfold onCheckoutSubmit. destruct (_ || _); [done|].
  unfold try_catch, mbind, M_bind. case_bool_decide as He.
  - rewrite checkout_empty by done. unfold mret, M_ret, EmptyCart.
    by rewrite message_or_string_Error.
  - rewrite checkout_nonempty by done. unfold mret, M_ret. cbn [orderId].
    by rewrite <- !app_assoc.
Qed.

(** X20.  Submitting the login form never throws.  An email that is
    blank after trimming, or an empty password, asks for both and leaves
    storage as it was; otherwise the trimmed email is logged in, with the
    password as typed, and when [btoa] rejects that email the failure is
    reported and storage is as it was. *)
Theorem onLoginSubmit_outcome email_field password_field now ls :
  onLoginSubmit host_message host_string email_field password_field now ls
  = if blank (trim email_field) || blank password_field
    then (Ok (js "Please enter email and password (fake)."), ls)
    else if forallb (λ c, c <=? 255)%N (trim email_field)
    then (Ok (js "Welcome (fake): " ++ trim email_field),
          snd (login (trim email_field) password_field now ls))
    else (Ok (js "Login failed: "
              ++ message_or_string host_message host_string InvalidCharacterError),
          ls).
Proof.
  unfold onLoginSubmit. destruct (_ || _); [done|].
  unfold try_catch, mbind, M_bind.
  destruct (forallb _ (trim email_field)) eqn:E.
  - rewrite login_latin1; [done|].
    apply Forall_forall. intros c Hc. rewrite forallb_forall in E.
    apply N.leb_le, E. by apply list_elem_of_In.
  - rewrite login_beyond_latin1; [done|].
    intros Hl. apply latin1_forallb in Hl. congruence.
Qed.

Lemma positive_quantities_step ls :
  positive_quantities (persisted ls) →
  (∀ productId (qty : quantity),
     (0 < qty)%Z →
     positive_quantities (persisted (snd (addToCart (num:=num) productId qty ls))))
  ∧ (∀ productId qty,
       positive_quantities (persisted (snd (setCartQuantity productId qty ls))))
  ∧ (∀ productId,
       positive_quantities (persisted (snd (removeFromCart productId ls))))
  ∧ (∀ now, positive_quantities (persisted (snd (checkout now ls)))).
Proof.
  intros Hpos. repeat split.
  - intros productId qty Hq.
    destruct (decide (productId ∈ product_ids (num:=num))) as [Hin|Hout].
    + rewrite addToCart_known by done. cbn [snd]. rewrite persisted_write.
      apply map_Forall_insert_2; [|done]. apply plus_pos; [|done].
      destruct (persisted ls !! productId) as [q|] eqn:E; cbn [default];
        unfold Datatypes.id; [|lia].
      specialize (Hpos _ _ E). cbn beta in Hpos. lia.
    + by rewrite addToCart_unknown.
  - intros productId qty. rewrite setCartQuantity_run. cbn [snd].
    rewrite persisted_write. case_bool_decide.
    + by apply map_Forall_delete.
    + destruct (assign_cases productId qty (persisted ls)) as [->| ->]; [done|].
      apply map_Forall_insert_2; [lia | done].
  - intros productId. rewrite removeFromCart_run. cbn [snd].
    rewrite persisted_write. by apply map_Forall_delete.
  - intros now. destruct (decide (persisted ls = ∅)) as [He|Hne].
    + by rewrite checkout_empty.
    + rewrite checkout_nonempty by done. cbn [snd]. rewrite persisted_write.
      apply map_Forall_empty.
Qed.

(** What an event can do to storage: nothing, or what one call of the
    service does, an addition being of one unit and a quantity set being
    at least 1. *)
Lemma dispatch_cases ev ls :
  let ls' := dispatch (num:=num) host_message host_string ev ls in
  ls' = ls
  ∨ (∃ pid, ls' = snd (addToCart (num:=num) pid (double 1) ls))
  ∨ (∃ pid (q : quantity), (1 ≤ q)%Z ∧ ls' = snd (setCartQuantity pid q ls))
  ∨ (∃ pid, ls' = snd (removeFromCart pid ls))
  ∨ (∃ now, ls' = snd (checkout now ls))
  ∨ (∃ email password now, ls' = snd (login email password now ls)).
Proof.
  intros ls'. subst ls'. destruct ev as [pid|heading|pid value|pid|n e a c now|e p now];
    cbn [dispatch].
  - right. left. exists pid.
    destruct (decide (pid ∈ product_ids (num:=num))) as [Hin|Hout].
    + by rewrite onAddToCartClick_known.
    + by rewrite onAddToCartClick_unknown, addToCart_unknown.
  - unfold onStaticAddClick.
    destruct (find_by_name (trim <$> heading)) as [prod|] eqn:E; [|by left].
    right. left. exists (id prod).
    apply find_by_name_Some in E as [Hin E].
    assert (id prod ∈ product_ids (num:=num)) as Hid
      by (apply list_elem_of_fmap; by exists prod).
    unfold try_catch, mbind, M_bind. by rewrite addToCart_known.
  - right. right. left. exists pid, (asked_quantity value).
    split; [apply asked_quantity_positive | done].
  - right. right. right. left. by exists pid.
  - unfold onCheckoutSubmit. destruct (_ || _); [by left|].
    right. right. right. right. left. exists now.
    unfold try_catch, mbind, M_bind.
    destruct (decide (persisted ls = ∅)) as [He|Hne].
    + by rewrite checkout_empty.
    + by rewrite checkout_nonempty.
  - unfold onLoginSubmit. destruct (_ || _); [by left|].
    right. right. right. right. right. exists (trim e), p, now.
    unfold try_catch, mbind, M_bind.
    destruct (decide (Forall (λ c, (c ≤ 255)%N) (trim e))) as [Hl|Hl].
    + by rewrite login_latin1.
    + by rewrite login_beyond_latin1.
Qed.

(** X21.  Through the page no quantity below 1 gets into the cart: if
    every stored quantity is positive, it is so after every sequence of
    clicks, quantity changes and form submissions in which the texts of
    the quantity fields stay within the finite doubles. *)
Theorem page_keeps_quantities_positive evs ls :
  Forall event_in_range evs →
  positive_quantities (persisted ls) →
  positive_quantities
    (persisted (dispatch_all (num:=num) host_message host_string evs ls)).
Proof.
  intros _. revert ls. induction evs as [|ev evs IH]; intros ls Hpos; [done|].
  cbn [dispatch_all foldl]. apply IH.
  destruct (positive_quantities_step ls Hpos) as (Hadd & Hset & Hrem & Hout).
  destruct (dispatch_cases ev ls)
    as [->|[[pid ->]|[(pid & q & Hq & ->)|[[pid ->]|[[now ->]|(e & p & now & ->)]]]]].
  - done.
  - apply Hadd. by rewrite units_double_1.
  - apply Hset.
  - apply Hrem.
  - apply Hout.
  - by rewrite (persisted_ext ls) by apply login_storage.
Qed.

(** X22.  The page writes under its three keys only: every other key of
    [localStorage] holds after an event what it held before. *)
Theorem page_touches_only_its_keys ev key ls :
  key ≠ fh_cart → key ≠ fh_token → key ≠ fh_user →
  dispatch (num:=num) host_message host_string ev ls !! key = ls !! key.
Proof.
  intros Hc Ht Hu.
  destruct (dispatch_cases ev ls)
    as [->|[[pid ->]|[(pid & q & Hq & ->)|[[pid ->]|[[now ->]|(e & p & now & ->)]]]]].
  - done.
  - destruct (decide (pid ∈ product_ids (num:=num))) as [Hin|Hout].
    + rewrite addToCart_known by done. by apply lookup_insert_ne.
    + by rewrite addToCart_unknown.
  - rewrite setCartQuantity_run. by apply lookup_insert_ne.
  - rewrite removeFromCart_run. by apply lookup_insert_ne.
  - destruct (decide (persisted ls = ∅)) as [He|Hne].
    + by rewrite checkout_empty.
    + rewrite checkout_nonempty by done. by apply lookup_insert_ne.
  - destruct (decide (Forall (λ c, (c ≤ 255)%N) e)) as [Hl|Hl].
    + rewrite login_latin1 by done. cbn [snd]. by rewrite !lookup_insert_ne.
    + by rewrite login_beyond_latin1.
Qed.
End PageFacts.

(** ** The further properties at concrete inputs *)

Lemma cart_operations_frame_witness :
  js "p2" ≠ js "p1"
  ∧ persisted (cart_codec:=CodecLaws.cart_json)
      (snd (addToCart (num:=spec_float) (cart_codec:=CodecLaws.cart_json) (js "p1")
              (double 2) ∅))
    !! js "p2"
    = persisted (cart_codec:=CodecLaws.cart_json) ∅ !! js "p2".
Proof.
  assert (js "p2" ≠ js "p1") as Hne by discriminate.
  split; [exact Hne|].
  exact (proj1 (cart_operations_frame (num:=spec_float) (cart_codec:=CodecLaws.cart_json)
                  (js "p1") (js "p2") (double 2) ∅ Hne)).
Defined.

Lemma setCartQuantity_last_wins_witness :
  js "p1" ≠ js "__proto__"
  ∧ persisted (cart_codec:=CodecLaws.cart_json)
      (snd (setCartQuantity (cart_codec:=CodecLaws.cart_json) (js "p1") (double 5)
              (snd (setCartQuantity (cart_codec:=CodecLaws.cart_json)
                      (js "p1") (double 0) ∅))))
    = persisted (cart_codec:=CodecLaws.cart_json)
        (snd (setCartQuantity (cart_codec:=CodecLaws.cart_json)
                (js "p1") (double 5) ∅)).
Proof.
  assert (js "p1" ≠ js "__proto__") as Hid by discriminate.
  split; [exact Hid|].
  exact (proj1 (setCartQuantity_last_wins (num:=spec_float)
                  (cart_codec:=CodecLaws.cart_json)
                  (js "p1") (double 0) (double 5) ∅ Hid)).
Defined.

Lemma addToCart_commutes_witness :
  js "p1" ∈ product_ids (num:=spec_float)
  ∧ js "p3" ∈ product_ids (num:=spec_float)
  ∧ js "p1" ≠ js "p3"
  ∧ persisted (cart_codec:=CodecLaws.cart_json)
      (snd (addToCart (num:=spec_float) (cart_codec:=CodecLaws.cart_json) (js "p3")
              (double 1)
              (snd (addToCart (num:=spec_float) (cart_codec:=CodecLaws.cart_json)
                      (js "p1") (double 2) ∅))))
    = persisted (cart_codec:=CodecLaws.cart_json)
        (snd (addToCart (num:=spec_float) (cart_codec:=CodecLaws.cart_json) (js "p1")
                (double 2)
                (snd (addToCart (num:=spec_float) (cart_codec:=CodecLaws.cart_json)
                        (js "p3") (double 1) ∅)))).
Proof.
  assert (js "p1" ∈ product_ids (num:=spec_float)) as H1 by decide_now.
  assert (js "p3" ∈ product_ids (num:=spec_float)) as H3 by decide_now.
  assert (js "p1" ≠ js "p3") as Hne by discriminate.
  split; [exact H1|]. split; [exact H3|]. split; [exact Hne|].
  exact (addToCart_commutes (num:=spec_float) (cart_codec:=CodecLaws.cart_json)
           (js "p1") (double 2) (js "p3") (double 1) ∅ H1 H3 Hne).
Defined.

Lemma unreadable_cart_discarded_witness :
  let ls : Storage := {[ fh_cart := js "{oops" ]} in
  ls !! fh_cart = Some (js "{oops")
  ∧ JSON_text (JSON:=CodecLaws.cart_json) (js "{oops") = None
  ∧ checkout (cart_codec:=CodecLaws.cart_json) 1700000000000 ls
    = (Throw EmptyCart, ls).
Proof.
  intros ls.
  assert (ls !! fh_cart = Some (js "{oops")) as Hraw by apply lookup_singleton_eq.
  assert (JSON_text (JSON:=CodecLaws.cart_json) (js "{oops") = None) as Hrej
    by reflexivity.
  split; [exact Hraw|]. split; [exact Hrej|].
  exact (proj1 (unreadable_cart_discarded (num:=spec_float)
                  (cart_codec:=CodecLaws.cart_json) _ ls Hraw Hrej)
           1700000000000%Z).
Defined.

Lemma getCart_binary64_nearest_exact_witness :
  let ls : Storage :=
    <[fh_cart := JSON_stringify (JSON:=CodecLaws.cart_json) example_cart]> ∅ in
  (∀ pid q, persisted (cart_codec:=CodecLaws.cart_json) ls !! pid = Some q →
            (0 ≤ q ≤ 100)%Z)
  ∧ ∃ v, getCart (num:=spec_float) (cart_codec:=CodecLaws.cart_json) ls = (Ok v, ls)
      ∧ total v = Binary64.decimal 16550 2.
Proof.
  intros ls.
  assert (∀ pid q, persisted (cart_codec:=CodecLaws.cart_json) ls !! pid = Some q →
                   (0 ≤ q ≤ 100)%Z) as Hq.
  { intros pid q Hl. subst ls. rewrite persisted_write in Hl.
    unfold example_cart in Hl.
    apply lookup_insert_Some in Hl as [[_ <-]|[_ Hl]]; [lia|].
    apply lookup_singleton_Some in Hl as [_ <-]. lia. }
  split; [exact Hq|].
  destruct (getCart_binary64_nearest_exact (cart_codec:=CodecLaws.cart_json) ls Hq)
    as (v & Hrun & _ & _ & _ & Htotal).
  exists v. split; [exact Hrun|]. rewrite Htotal. subst ls.
  rewrite persisted_write. reflexivity.
Defined.

Lemma login_logout_round_trip_witness :
  (∅ : Storage) !! fh_token = None
  ∧ (∅ : Storage) !! fh_user = None
  ∧ snd (logout (snd (login (user_codec:=CodecLaws.user_json)
                        (js "a@b.org") (js "secret") 1700000000000 ∅)))
    = ∅.
Proof.
  assert ((∅ : Storage) !! fh_token = None) as Ht by apply lookup_empty.
  assert ((∅ : Storage) !! fh_user = None) as Hu by apply lookup_empty.
  split; [exact Ht|]. split; [exact Hu|].
  exact (login_logout_round_trip (user_codec:=CodecLaws.user_json)
           (js "a@b.org") (js "secret") 1700000000000 ∅ Ht Hu).
Defined.

Lemma login_replaces_session_witness :
  latin1 (js "c@d.org")
  ∧ snd (login (user_codec:=CodecLaws.user_json) (js "c@d.org") (js "pw") 2
           (snd (login (user_codec:=CodecLaws.user_json)
                   (js "a@b.org") (js "secret") 1 ∅)))
    = snd (login (user_codec:=CodecLaws.user_json) (js "c@d.org") (js "pw") 2 ∅).
Proof.
  assert (latin1 (js "c@d.org")) as Hl by decide_now.
  split; [exact Hl|].
  exact (login_replaces_session (user_codec:=CodecLaws.user_json)
           (js "a@b.org") (js "secret") 1 (js "c@d.org") (js "pw") 2 ∅ Hl).
Defined.

Lemma login_token_identifies_witness :
  let tok := js "fake-token-" ++ base64 (js "a@b.org" ++ js ":" ++ String_of_Z 1) in
  let r := {| login_success := true; token := tok;
              user := {| email := js "a@b.org" |} |} in
  let session (ls : Storage) : Storage :=
    <[fh_user := JSON_stringify (JSON:=CodecLaws.user_json)
                   {| email := js "a@b.org" |}]> (<[fh_token := tok]> ls) in
  let ls2 : Storage := {[ js "theme" := js "dark" ]} in
  login (user_codec:=CodecLaws.user_json) (js "a@b.org") (js "one") 1 ∅
  = (Ok r, session ∅)
  ∧ login (user_codec:=CodecLaws.user_json) (js "a@b.org") (js "two") 1 ls2
    = (Ok r, session ls2)
  ∧ token r = token r
  ∧ js "a@b.org" = js "a@b.org" ∧ 1%Z = 1%Z.
Proof.
  intros tok r session ls2.
  assert (latin1 (js "a@b.org")) as Hl by decide_now.
  pose proof (login_latin1 (user_codec:=CodecLaws.user_json)
                (js "a@b.org") (js "one") 1 ∅ Hl) as E1.
  pose proof (login_latin1 (user_codec:=CodecLaws.user_json)
                (js "a@b.org") (js "two") 1 ls2 Hl) as E2.
  split; [exact E1|]. split; [exact E2|]. split; [reflexivity|].
  exact (login_token_identifies (user_codec:=CodecLaws.user_json)
           _ _ _ _ _ _ _ _ _ _ _ _ E1 E2 eq_refl).
Defined.

Lemma renderCartSummary_counts_witness :
  let ls : Storage :=
    <[fh_cart := JSON_stringify (JSON:=CodecLaws.cart_json) example_cart]> ∅ in
  (∀ k q, persisted (cart_codec:=CodecLaws.cart_json) ls !! k = Some q → 0 ≤ q)%Z
  ∧ (cart_count (persisted (cart_codec:=CodecLaws.cart_json) ls) ≤ 2 ^ 53)%Z
  ∧ renderCartSummary (num:=spec_float) (cart_codec:=CodecLaws.cart_json) ls
    = (Ok (js "Cart: 3 items"), ls).
Proof.
  intros ls.
  assert (persisted (cart_codec:=CodecLaws.cart_json) ls = example_cart) as E
    by apply persisted_write.
  assert (∀ k q, persisted (cart_codec:=CodecLaws.cart_json) ls !! k = Some q →
                 0 ≤ q)%Z as Hc.
  { intros k q Hl. rewrite E in Hl. unfold example_cart in Hl.
    apply lookup_insert_Some in Hl as [[_ <-]|[_ Hl]]; [lia|].
    apply lookup_singleton_Some in Hl as [_ <-]. lia. }
  assert (cart_count (persisted (cart_codec:=CodecLaws.cart_json) ls) ≤ 2 ^ 53)%Z
    as Hsum by (rewrite E; decide_now).
  split; [exact Hc|]. split; [exact Hsum|].
  rewrite (renderCartSummary_counts (num:=spec_float) (cart_codec:=CodecLaws.cart_json)
             ls Hc Hsum).
  rewrite E. reflexivity.
Defined.

Lemma onQuantityChange_at_least_one_witness :
  in_range (js "7 pairs")
  ∧ (1 ≤ asked_quantity (js "7 pairs"))%Z
  ∧ units (asked_quantity (js "7 pairs")) = 7%Z.
Proof.
  assert (in_range (js "7 pairs")) as Hr.
  { intros n E. vm_compute in E. injection E as <-. decide_now. }
  split; [exact Hr|].
  destruct (onQuantityChange_at_least_one (cart_codec:=CodecLaws.cart_json)
              (js "p1") (js "7 pairs") ∅ Hr) as (Hq & _ & _ & Hexact & _).
  split; [exact Hq|].
  apply (Hexact 7%Z); [reflexivity | decide_now].
Defined.

Lemma quantity_field_round_trip_witness :
  let ls : Storage :=
    <[fh_cart := JSON_stringify (JSON:=CodecLaws.cart_json) {[ js "p1" := 3%Z ]}]> ∅ in
  (- 2 ^ 53 < 3 < 2 ^ 53)%Z
  ∧ persisted (cart_codec:=CodecLaws.cart_json) ls !! js "p1" = Some 3%Z
  ∧ units (asked_quantity (String_of_Z 3)) = 3%Z
  ∧ persisted (cart_codec:=CodecLaws.cart_json)
      (snd (onQuantityChange (cart_codec:=CodecLaws.cart_json)
              (js "p1") (String_of_Z 3) ls))
    = persisted (cart_codec:=CodecLaws.cart_json) ls.
Proof.
  intros ls.
  assert (- 2 ^ 53 < 3 < 2 ^ 53)%Z as Hb by lia.
  assert (persisted (cart_codec:=CodecLaws.cart_json) ls !! js "p1" = Some 3%Z)
    as Hn by (subst ls; rewrite persisted_write; apply lookup_singleton_eq).
  split; [exact Hb|]. split; [exact Hn|].
  exact (quantity_field_round_trip (cart_codec:=CodecLaws.cart_json)
           (js "p1") 3 ls Hb Hn).
Defined.

Lemma page_keeps_quantities_positive_witness :
  let silent : exn → jsstring := λ _, [] in
  let evs := [AddToCartClick (js "p1"); QuantityChange (js "p1") (js "-4");
              StaticAddClick (Some (js " Stylish Jacket "));
              LoginSubmit (js "a@b.org") (js "secret") 1;
              RemoveClick (js "p2")] in
  Forall event_in_range evs
  ∧ positive_quantities (persisted (cart_codec:=CodecLaws.cart_json) ∅)
  ∧ positive_quantities
      (persisted (cart_codec:=CodecLaws.cart_json)
         (dispatch_all (num:=spec_float) (cart_codec:=CodecLaws.cart_json)
            (user_codec:=CodecLaws.user_json) silent silent evs ∅)).
Proof.
  intros silent evs.
  assert (Forall event_in_range evs) as Hr.
  { repeat constructor. intros n E. vm_compute in E. injection E as <-.
    decide_now. }
  assert (positive_quantities (persisted (cart_codec:=CodecLaws.cart_json) ∅)) as Hpos
    by (rewrite persisted_missing by done; apply map_Forall_empty).
  split; [exact Hr|]. split; [exact Hpos|].
  exact (page_keeps_quantities_positive (num:=spec_float) (cart_codec:=CodecLaws.cart_json)
           (user_codec:=CodecLaws.user_json) silent silent evs ∅ Hr Hpos).
Defined.

Lemma page_touches_only_its_keys_witness :
  let silent : exn → jsstring := λ _, [] in
  let ls : Storage := {[ js "theme" := js "dark" ]} in
  js "theme" ≠ fh_cart ∧ js "theme" ≠ fh_token ∧ js "theme" ≠ fh_user
  ∧ dispatch (num:=spec_float) (cart_codec:=CodecLaws.cart_json)
      (user_codec:=CodecLaws.user_json) silent silent
      (AddToCartClick (js "p1")) ls !! js "theme"
    = Some (js "dark").
Proof.
  intros silent ls.
  assert (js "theme" ≠ fh_cart) as Hc by discriminate.
  assert (js "theme" ≠ fh_token) as Ht by discriminate.
  assert (js "theme" ≠ fh_user) as Hu by discriminate.
  split; [exact Hc|]. split; [exact Ht|]. split; [exact Hu|].
  rewrite (page_touches_only_its_keys (num:=spec_float) (cart_codec:=CodecLaws.cart_json)
             (user_codec:=CodecLaws.user_json) silent silent
             (AddToCartClick (js "p1")) (js "theme") ls Hc Ht Hu).
  apply lookup_singleton_eq.
Defined.
